(** * cchunker and multicchunker: content-defined chunking drivers

    A shallow embedding of the two command-line programs of the repository,
    [cchunker] (one pass over standard input) and [multicchunker] (repeated
    passes that collapse the input to one summary), and the properties of
    their control flow.

    The chunking engine (restic/chunker), the sub-process runner (os/exec),
    the flag package and the operating system are collaborators: they enter
    through the [Host] interface and stay abstract in every theorem. *)

From Stdlib Require Import ZArith Lia Bool String Ascii.
From Stdlib Require Import Strings.Byte.
From Stdlib Require Decimal DecimalString.
From Stdlib Require Import List.
Import ListNotations.

Open Scope Z_scope.

(** Byte slices, [[]byte] in the source. *)
Definition bytes := list byte.

(** ** The pieces of the Go runtime the programs rely on *)
Module Go.

(** [int64] and [int] (64-bit platforms) wrap around on overflow. *)
Definition wrap_int64 (z : Z) : Z := (z + 2 ^ 63) mod 2 ^ 64 - 2 ^ 63.
Definition wrap_int (z : Z) : Z := wrap_int64 z.
Definition MaxInt64 : Z := 2 ^ 63 - 1.

(** A string constant seen as the bytes a writer receives. *)
Definition text (s : string) : bytes := list_byte_of_string s.

Definition newline : byte := x0a.

(** The verb [%d]: optional minus sign and the decimal digits. *)
Definition fmt_d (v : Z) : bytes := text (DecimalString.NilZero.string_of_int (Z.to_int v)).

(** The format ["%d\n"] used for the iteration line and the polynomial. *)
Definition fmt_d_nl (v : Z) : bytes := fmt_d v ++ [newline].

(** The format ["<msg>: %s\n"] of every diagnostic, [msg] holding the colon. *)
Definition fmt_s_nl (msg : string) (err : string) : bytes :=
  text msg ++ text err ++ [newline].

(** [fmt.Fprintln] of one string operand. *)
Definition println (s : string) : bytes := text s ++ [newline].

(** [bytes.Buffer.Write] appends and reports no error. *)
Definition Buffer_Write (buf p : bytes) : bytes * option string :=
  (buf ++ p, None).

(** [bytes.Buffer.Reset] empties the buffer. *)
Definition Buffer_Reset (buf : bytes) : bytes := [].




End Go.

(** ** Collaborators *)

(** A command as [exec.Command] builds it, with the reader set as its input.
    [Name] is the program as the caller named it; finding the file it
    stands for, which [exec.Command] does for a name without a slash by a
    search of PATH, depends on the world outside and belongs to [exec_Run]. *)
Record Cmd := mkCmd {
  Name : string;
  Args : list string;
  Stdin : bytes
}.

(** What one [exec.Cmd.Run] did: the bytes the child wrote on its standard
    output and error, and the error [Run] returned ([None] for exit status 0). *)
Record CmdResult := mkCmdResult {
  cr_out : bytes;
  cr_errout : bytes;
  cr_err : option string
}.

(** How the sequence of chunks ends: [io.EOF], or another error of [Next]. *)
Inductive NextEnd := EndEOF | EndErr (e : string).

Class Host := {
  (** the world outside the process *)
  Env : Type;
  (** os/exec *)
  exec_Run : Cmd -> Env -> CmdResult * Env;
  (** restic/chunker *)
  Chunker : Type;
  NewWithBoundaries : bytes -> Z -> Z -> Z -> Chunker;
  SetAverageBits : Chunker -> Z -> Chunker;
  (** the results of the successive calls of [Next], up to the first error *)
  Next_all : Chunker -> list bytes * NextEnd;
  RandomPolynomial : Env -> (Z + string) * Env;
  Irreducible : Z -> bool;
  (** [os.Stdout.Write]: bytes accepted and the error, if any *)
  Stdout_Write : bytes -> Env -> (nat * option string) * Env;
  (** the text [flag.PrintDefaults] prints *)
  PrintDefaults : bytes
}.

(** Calls that leave the process, in the order they happen. *)
Inductive Event :=
| EvRun (c : Cmd) (r : CmdResult)
| EvRandomPolynomial
| EvIrreducible (p : Z).

Definition ev_out (e : Event) : bytes :=
  match e with EvRun _ r => cr_out r | _ => [] end.

Definition ev_failed (e : Event) : bool :=
  match e with
  | EvRun _ r => match cr_err r with Some _ => true | None => false end
  | _ => false
  end.

Definition is_irreducible_check (e : Event) : bool :=
  match e with EvIrreducible _ => true | _ => false end.

(** The process as the operating system sees it. *)
Record Proc {H : Host} := mkProc {
  env : Env;
  os_Stdin : bytes;
  os_Stdout : bytes;
  os_Stderr : bytes;
  trace : list Event
}.

(** ** A state monad with process exit *)

Inductive Res (A : Type) :=
| Ret (a : A)
| Exit (code : Z)
| OutOfFuel.
Arguments Ret {A} a.
Arguments Exit {A} code.
Arguments OutOfFuel {A}.

Definition M (S A : Type) := S -> Res A * S.

Definition ret {S A} (a : A) : M S A := fun s => (Ret a, s).

Definition bind {S A B} (m : M S A) (k : A -> M S B) : M S B :=
  fun s =>
    match m s with
    | (Ret a, s') => k a s'
    | (Exit c, s') => (Exit c, s')
    | (OutOfFuel, s') => (OutOfFuel, s')
    end.

Definition os_Exit {S A} (code : Z) : M S A := fun s => (Exit code, s).
Definition out_of_fuel {S A} : M S A := fun s => (OutOfFuel, s).
Definition gets {S A} (f : S -> A) : M S A := fun s => (Ret (f s), s).
Definition modify {S} (f : S -> S) : M S unit := fun s => (Ret tt, f s).

Declare Scope go_scope.
Delimit Scope go_scope with go.
Notation "x <- m ;; k" := (bind m (fun x => k))
  (at level 100, m at next level, right associativity) : go_scope.
Notation "m ;; k" := (bind m (fun _ => k))
  (at level 100, right associativity) : go_scope.
Open Scope go_scope.

(** The exit status the parent process observes. *)
Definition exit_status {A} (r : Res A) : option Z :=
  match r with
  | Ret _ => Some 0
  | Exit c => Some c
  | OutOfFuel => None
  end.

(** ** What both programs share *)

(** The flags after [flag.Parse]; [polynomialInt] is a [uint64]. *)
Record Flags := mkFlags {
  newPolynomial : bool;
  checkPolynomial : bool;
  smallChunks : bool;
  largeChunks : bool;
  polynomialInt : Z
}.

(** The default of the [-polynomial] flag. *)
Definition default_polynomial : Z := 0x3DA3358B4DC173.

Definition default_flags : Flags :=
  mkFlags false false false false default_polynomial.

(** The constant block of [main], the same in both programs. *)
Definition kiB : Z := 1024.
Definition miB : Z := 1024 * kiB.

Definition SmallMinSize : Z := 512 * kiB.
Definition SmallMaxSize : Z := 8 * miB.
Definition SmallBits : Z := 20.

Definition StandardMinSize : Z := 512 * kiB.
Definition StandardMaxSize : Z := 16 * miB.
Definition StandardBits : Z := 22.

Definition LargeMinSize : Z := 1024 * kiB.
Definition LargeMaxSize : Z := 32 * miB.
Definition LargeBits : Z := 23.

Definition chunkerBufSize : Z := 512 * kiB.

(** The size profiles of the specification, read off the constants. *)
Record SizeProfile := mkSizeProfile {
  minSize : Z;
  maxSize : Z;
  averageSizeBits : Z
}.

Definition small_profile : SizeProfile :=
  mkSizeProfile SmallMinSize SmallMaxSize SmallBits.
Definition standard_profile : SizeProfile :=
  mkSizeProfile StandardMinSize StandardMaxSize StandardBits.
Definition large_profile : SizeProfile :=
  mkSizeProfile LargeMinSize LargeMaxSize LargeBits.

Definition profiles : list SizeProfile :=
  [small_profile; standard_profile; large_profile].

(** The invariant the specification asks of a profile. *)
Definition profile_ok (p : SizeProfile) : Prop :=
  minSize p < maxSize p /\
  minSize p <= 2 ^ averageSizeBits p <= maxSize p.

Definition LF : string := String (ascii_of_nat 10) EmptyString.

Section Shared.
Context {H : Host}.

Definition set_env (e : Env) (p : Proc) : Proc :=
  mkProc H e (os_Stdin p) (os_Stdout p) (os_Stderr p) (trace p).
Definition add_Stdout (b : bytes) (p : Proc) : Proc :=
  mkProc H (env p) (os_Stdin p) (os_Stdout p ++ b) (os_Stderr p) (trace p).
Definition add_Stderr (b : bytes) (p : Proc) : Proc :=
  mkProc H (env p) (os_Stdin p) (os_Stdout p) (os_Stderr p ++ b) (trace p).
Definition add_event (e : Event) (p : Proc) : Proc :=
  mkProc H (env p) (os_Stdin p) (os_Stdout p) (os_Stderr p) (trace p ++ [e]).

(** [fmt.Fprintf(os.Stderr, ...)] and [fmt.Fprintln(os.Stderr, ...)]; the
    programs drop their results. *)
Definition Fprint_Stderr (b : bytes) : M Proc unit := modify (add_Stderr b).

(** [os.Stdout.Write] and [fmt.Printf]: on an error only the accepted
    prefix reaches the stream. The outcomes are those in which the call
    returns; a write to a pipe whose reader is gone, on which the runtime
    ends the process by SIGPIPE, is not among them. *)
Definition os_Stdout_Write (b : bytes) : M Proc (option string) :=
  fun p =>
    let '((n, err), e') := Stdout_Write b (env p) in
    let landed := match err with None => b | Some _ => firstn n b end in
    (Ret err, add_Stdout landed (set_env e' p)).

Definition chunker_RandomPolynomial : M Proc (Z + string) :=
  fun p =>
    let (r, e') := RandomPolynomial (env p) in
    (Ret r, add_event EvRandomPolynomial (set_env e' p)).

Definition Pol_Irreducible (pol : Z) : M Proc bool :=
  fun p => (Ret (Irreducible pol), add_event (EvIrreducible pol) p).

(** [cmd.Run()] with [cmd.Stderr = os.Stderr]: the child runs to its end,
    its error output lands on the process's own. Where its standard output
    goes is the caller's choice. *)
Definition cmd_Run (c : Cmd) : M Proc CmdResult :=
  fun p =>
    let (r, e') := exec_Run c (env p) in
    (Ret r, add_Stderr (cr_errout r) (add_event (EvRun c r) (set_env e' p))).

(** [exec.Command(name, arg...)]: the argument vector starts with the name
    as it was given. *)
Definition exec_Command (name : string) (arg : list string) : Cmd :=
  mkCmd name (name :: arg) [].

Definition with_Stdin (c : Cmd) (data : bytes) : Cmd :=
  mkCmd (Name c) (Args c) data.

(** The command of one dispatch: [exec.Command] on [cmdArgs], then
    [cmd.Stdin = bytes.NewReader(chunk.Data)]. *)
Definition chunk_command (cmdArgs : list string) (chunk : bytes) : Cmd :=
  let cmd :=
    if Nat.eqb (List.length cmdArgs) 1
    then exec_Command (hd EmptyString cmdArgs) []
    else exec_Command (hd EmptyString cmdArgs) (tl cmdArgs) in
  with_Stdin cmd chunk.

(** The two one-shot actions that open [main]; [true] when [main] returns
    there. *)
Definition one_shot (flags : Flags) : M Proc bool :=
  let polynomial := polynomialInt flags in
  if newPolynomial flags then
    r <- chunker_RandomPolynomial ;;
    match r with
    | inr err =>
        Fprint_Stderr (Go.fmt_s_nl "unable to generate polynomial: " err) ;;
        os_Exit 1
    | inl p =>
        err <- os_Stdout_Write (Go.fmt_d_nl p) ;;
        match err with
        | Some e =>
            Fprint_Stderr (Go.fmt_s_nl "unable to print polynomial: " e) ;;
            os_Exit 1
        | None => ret true
        end
    end
  else if checkPolynomial flags then
    ok <- Pol_Irreducible polynomial ;;
    if negb ok then
      Fprint_Stderr (Go.text "polynomial is not irreducible, it is not suitable for content chunking" ++ [Go.newline]) ;;
      os_Exit 1
    else ret true
  else ret false.

(** The chunker of a pass and the length of its scratch buffer. *)
Definition select_chunker (flags : Flags) (input : bytes) (polynomial : Z)
  : Chunker * Z :=
  if smallChunks flags then
    let cchunker := NewWithBoundaries input polynomial SmallMinSize SmallMaxSize in
    let cchunker := SetAverageBits cchunker SmallBits in
    (cchunker, SmallMaxSize)
  else if largeChunks flags then
    let cchunker := NewWithBoundaries input polynomial LargeMinSize LargeMaxSize in
    let cchunker := SetAverageBits cchunker LargeBits in
    (cchunker, LargeMaxSize)
  else
    let cchunker := NewWithBoundaries input polynomial StandardMinSize StandardMaxSize in
    let cchunker := SetAverageBits cchunker StandardBits in
    (cchunker, StandardMaxSize).

(** The chunker a profile stands for. *)
Definition chunker_of_profile (p : SizeProfile) (input : bytes) (polynomial : Z)
  : Chunker :=
  SetAverageBits (NewWithBoundaries input polynomial (minSize p) (maxSize p))
                 (averageSizeBits p).

End Shared.

(** ** cchunker: the single-level driver *)
Module Cchunker.
Section Program.
Context {H : Host}.

Definition usage {A} : M Proc A :=
  Fprint_Stderr (Go.println "This is a command that does content defined chunking on data piped into stdin.") ;;
  Fprint_Stderr (Go.println "Content chunking has the special property is that chunks will be shared across similar") ;;
  Fprint_Stderr (Go.println "data, this makes these chunks suitable for deduplicating backup programs.") ;;
  Fprint_Stderr (Go.println "with cchunker, what to do with the chunk is determined by a subcommand passed to cchunker.") ;;
  Fprint_Stderr (Go.println LF) ;;
  Fprint_Stderr (Go.println "usage:") ;;
  Fprint_Stderr (Go.println "cchunker [-flags...] CHUNK PROCESSOR") ;;
  Fprint_Stderr (Go.println "CHUNK PROCESSOR is a command+arguments that reads the chunk data on stdin and does an arbitrary action.") ;;
  Fprint_Stderr (Go.println "The default are chunks with a min size 512 KiB, max size 16 MiB and and average of 4MiB") ;;
  Fprint_Stderr (Go.println "On any IO or subprocess errors, cchunker exits with a non zero exit code.") ;;
  Fprint_Stderr PrintDefaults ;;
  os_Exit 1.

(** The loop over [cchunker.Next(buf)], with [cmd.Stdout = os.Stdout]:
    the child's output lands on the process's own output as it is. *)
Fixpoint chunk_loop (cmdArgs : list string) (chunks : list bytes) (fin : NextEnd)
  : M Proc unit :=
  match chunks with
  | [] =>
      match fin with
      | EndEOF => ret tt
      | EndErr e =>
          Fprint_Stderr (Go.fmt_s_nl "error getting next data chunk: " e) ;;
          os_Exit 1
      end
  | chunk :: rest =>
      let cmd := chunk_command cmdArgs chunk in
      r <- cmd_Run cmd ;;
      modify (add_Stdout (cr_out r)) ;;
      match cr_err r with
      | Some e =>
          Fprint_Stderr (Go.fmt_s_nl "error running chunk processing command: " e) ;;
          os_Exit 1
      | None => chunk_loop cmdArgs rest fin
      end
  end.

Definition main (flags : Flags) (cmdArgs : list string) : M Proc unit :=
  let polynomial := polynomialInt flags in
  done <- one_shot flags ;;
  if done then ret tt else
  (if Nat.eqb (List.length cmdArgs) 0 then usage else ret tt) ;;
  stdin <- gets os_Stdin ;;
  let (cchunker, buf) := select_chunker flags stdin polynomial in
  let (chunks, fin) := Next_all cchunker in
  chunk_loop cmdArgs chunks fin.

End Program.
End Cchunker.

(** ** multicchunker: the reduction driver *)
Module Multicchunker.
Section Program.
Context {H : Host}.

(** The process and the variables of [main]. *)
Record St := mkSt {
  proc : Proc;
  summaryData : bytes;
  summaryLine : bytes;
  input : bytes;
  iteration : Z
}.

Definition set_proc (p : Proc) (s : St) : St :=
  mkSt p (summaryData s) (summaryLine s) (input s) (iteration s).
Definition set_summaryData (b : bytes) (s : St) : St :=
  mkSt (proc s) b (summaryLine s) (input s) (iteration s).
Definition set_summaryLine (b : bytes) (s : St) : St :=
  mkSt (proc s) (summaryData s) b (input s) (iteration s).
Definition set_input (b : bytes) (s : St) : St :=
  mkSt (proc s) (summaryData s) (summaryLine s) b (iteration s).
Definition set_iteration (i : Z) (s : St) : St :=
  mkSt (proc s) (summaryData s) (summaryLine s) (input s) i.

(** The variables before [main] assigns them. *)
Definition start (p : Proc) : St := mkSt p [] [] [] 0.

Definition lift {A} (m : M Proc A) : M St A :=
  fun s => let (r, p') := m (proc s) in (r, set_proc p' s).

Definition usage {A} : M Proc A :=
  Fprint_Stderr (Go.println "This is a command that iteratively does content defined chunking on data piped into stdin,") ;;
  Fprint_Stderr (Go.println "each subcommand prints a line per chunk, eventually the iteration will reduce the data to a single line") ;;
  Fprint_Stderr (Go.println "This command is intended to be used as part of a backup tool") ;;
  Fprint_Stderr (Go.println LF) ;;
  Fprint_Stderr (Go.println "usage:") ;;
  Fprint_Stderr (Go.println "multicchunker [-flags...] CHUNK PROCESSOR") ;;
  Fprint_Stderr (Go.println "CHUNK PROCESSOR is a command+arguments that reads the chunk data on stdin and does an arbitrary action, but") ;;
  Fprint_Stderr (Go.println "must only print a single line to stdout") ;;
  Fprint_Stderr (Go.println "The default are chunks with a min size 512 KiB, max size 16 MiB and and average of 4MiB") ;;
  Fprint_Stderr (Go.println "On any IO or subprocess errors, multicchunker exits with a non zero exit code.") ;;
  Fprint_Stderr PrintDefaults ;;
  os_Exit 1.

(** [cmd.Run()] with [cmd.Stdout = &summaryLine]: what the child prints is
    appended to the buffer as it stands. *)
Definition Run_capture (cmd : Cmd) : M St (option string) :=
  r <- lift (cmd_Run cmd) ;;
  modify (fun s => set_summaryLine (summaryLine s ++ cr_out r) s) ;;
  ret (cr_err r).

(** [summaryData.Write(p)] and [fmt.Fprintf(summaryData, ...)]. *)
Definition summaryData_Write (p : bytes) : M St (option string) :=
  fun s =>
    let (buf, err) := Go.Buffer_Write (summaryData s) p in
    (Ret err, set_summaryData buf s).

(** The inner loop over [cchunker.Next(buf)]; returns [nChunks]. *)
Fixpoint chunk_loop (cmdArgs : list string) (chunks : list bytes) (fin : NextEnd)
  (nChunks : Z) : M St Z :=
  match chunks with
  | [] =>
      match fin with
      | EndEOF => ret nChunks
      | EndErr e =>
          lift (Fprint_Stderr (Go.fmt_s_nl "error getting next data chunk: " e)) ;;
          os_Exit 1
      end
  | chunk :: rest =>
      let cmd := chunk_command cmdArgs chunk in
      modify (fun s => set_summaryLine (Go.Buffer_Reset (summaryLine s)) s) ;;
      err <- Run_capture cmd ;;
      match err with
      | Some e =>
          lift (Fprint_Stderr (Go.fmt_s_nl "error running chunk processing command: " e)) ;;
          os_Exit 1
      | None =>
          line <- gets summaryLine ;;
          err <- summaryData_Write line ;;
          match err with
          | Some e =>
              lift (Fprint_Stderr (Go.fmt_s_nl "error writing summary line: " e)) ;;
              os_Exit 1
          | None => chunk_loop cmdArgs rest fin (Go.wrap_int (nChunks + 1))
          end
      end
  end.

(** The body of the outer loop down to the end of the inner loop: the
    iteration line, the chunker, the chunks; returns [nChunks]. *)
Definition pass (flags : Flags) (cmdArgs : list string) (polynomial : Z)
  : M St Z :=
  it <- gets iteration ;;
  err <- summaryData_Write (Go.fmt_d_nl it) ;;
  match err with
  | Some e =>
      lift (Fprint_Stderr (Go.fmt_s_nl "error writing iteration number: " e)) ;;
      os_Exit 1
  | None =>
      inp <- gets input ;;
      let (cchunker, buf) := select_chunker flags inp polynomial in
      let (chunks, fin) := Next_all cchunker in
      chunk_loop cmdArgs chunks fin 0
  end.

(** The three assignments that close a pass which does not break. *)
Definition next_level : M St unit :=
  modify (fun s => set_input (summaryData s) s) ;;
  modify (set_summaryData []) ;;
  modify (fun s => set_iteration (Go.wrap_int64 (iteration s + 1)) s).

(** One pass of the outer loop; [true] when it ends in [break]. *)
Definition level (flags : Flags) (cmdArgs : list string) (polynomial : Z)
  : M St bool :=
  nChunks <- pass flags cmdArgs polynomial ;;
  if (nChunks =? 0) || (nChunks =? 1) then ret true
  else next_level ;; ret false.

(** The outer [for]: passes until one breaks. *)
Fixpoint loop (fuel : nat) (flags : Flags) (cmdArgs : list string) (polynomial : Z)
  : M St unit :=
  match fuel with
  | O => out_of_fuel
  | S fuel' =>
      brk <- level flags cmdArgs polynomial ;;
      if brk then ret tt else loop fuel' flags cmdArgs polynomial
  end.

(** The write that ends [main]. *)
Definition write_result : M St unit :=
  out <- gets summaryData ;;
  err <- lift (os_Stdout_Write out) ;;
  match err with
  | Some e =>
      lift (Fprint_Stderr (Go.fmt_s_nl "error writing summary line: " e)) ;;
      os_Exit 1
  | None => ret tt
  end.

Definition main (fuel : nat) (flags : Flags) (cmdArgs : list string) : M St unit :=
  let polynomial := polynomialInt flags in
  done <- lift (one_shot flags) ;;
  if done then ret tt else
  (if Nat.eqb (List.length cmdArgs) 0 then lift usage else ret tt) ;;
  modify (set_summaryData []) ;;
  modify (set_summaryLine []) ;;
  modify (set_iteration 0) ;;
  stdin <- gets (fun s => os_Stdin (proc s)) ;;
  modify (set_input stdin) ;;
  loop fuel flags cmdArgs polynomial ;;
  write_result.

End Program.
End Multicchunker.

(** ** A small host to run the programs on

    Chunks are runs of eight bytes; the processor prints the line [h] and
    fails on a chunk that starts with [!]; writes and the polynomial
    generator succeed. *)
Module Demo.

Record chunker := mkChunker {
  k_rd : bytes;
  k_pol : Z;
  k_min : Z;
  k_max : Z;
  k_bits : option Z
}.

Fixpoint pieces (fuel : nat) (s : bytes) : list bytes :=
  match fuel, s with
  | O, _ => []
  | _, [] => []
  | S fuel', _ => firstn 8 s :: pieces fuel' (skipn 8 s)
  end.

Definition next_all (c : chunker) : list bytes * NextEnd :=
  (pieces (List.length (k_rd c)) (k_rd c), EndEOF).

Definition bang : byte := x21.

Definition run (c : Cmd) (e : unit) : CmdResult * unit :=
  match Stdin c with
  | b :: _ =>
      if Byte.eqb b bang
      then (mkCmdResult [] [] (Some "exit status 2"%string), e)
      else (mkCmdResult [x68; Go.newline] [] None, e)
  | [] => (mkCmdResult [x68; Go.newline] [] None, e)
  end.

#[local] Instance host : Host := {|
  Env := unit;
  exec_Run := run;
  Chunker := chunker;
  NewWithBoundaries := fun rd pol mn mx => mkChunker rd pol mn mx None;
  SetAverageBits := fun c b => mkChunker (k_rd c) (k_pol c) (k_min c) (k_max c) (Some b);
  Next_all := next_all;
  RandomPolynomial := fun e => (inl default_polynomial, e);
  Irreducible := fun _ => true;
  Stdout_Write := fun b e => ((List.length b, None), e);
  PrintDefaults := Go.text "  -small-chunks"
|}.

(** A process with the given bytes waiting on standard input. *)
Definition proc0 (stdin : bytes) : Proc := mkProc host tt stdin [] [] [].

Definition sh : list string := ["sh"%string; "hash.sh"%string].

(** A run with three chunks at its first level, one with a single chunk,
    and one whose second chunk makes the processor fail. *)
Definition three_chunks : Multicchunker.St :=
  @Multicchunker.start host (proc0 (Go.text "aaaaaaaabbbbbbbbcc")).
Definition one_chunk : Multicchunker.St :=
  @Multicchunker.start host (proc0 (Go.text "aaaa")).
Definition failing_chunk : Multicchunker.St :=
  @Multicchunker.start host (proc0 (Go.text "aaaaaaaa!bbbbbbbcc")).



End Demo.

(** * The vocabulary of the properties *)

Import Multicchunker.

(** The counter after [k] more chunks. *)
Definition count_up (k : nat) (n : Z) : Z :=
  Nat.iter k (fun z => Go.wrap_int (z + 1)) n.
Arguments count_up : simpl never.


(** The profile the flags select, as [select_chunker] tests them. *)
Definition active_profile (flags : Flags) : SizeProfile :=
  if smallChunks flags then small_profile
  else if largeChunks flags then large_profile
  else standard_profile.

(** [main] returning with the result of an action that decided to return. *)
Definition returned {A} (r : Res A) : Res unit :=
  match r with
  | Ret _ => Ret tt
  | Exit c => Exit c
  | OutOfFuel => OutOfFuel
  end.

(** The generate action and nothing else ran from [p] to [p']: one call of
    the generator, and its polynomial printed when there is one. *)
Definition generated {H : Host} {A} (p : Proc) (r : Res A) (p' : Proc) : Prop :=
  trace p' = trace p ++ [EvRandomPolynomial] /\
  match RandomPolynomial (env p) with
  | (inl pol, e1) =>
      match Stdout_Write (Go.fmt_d_nl pol) e1 with
      | ((_, None), _) =>
          exit_status r = Some 0 /\
          os_Stdout p' = os_Stdout p ++ Go.fmt_d_nl pol
      | ((n, Some _), _) =>
          exit_status r = Some 1 /\
          os_Stdout p' = os_Stdout p ++ firstn n (Go.fmt_d_nl pol)
      end
  | (inr _, _) => exit_status r = Some 1 /\ os_Stdout p' = os_Stdout p
  end.

(** The events [evs] are the dispatches of the chunks [chunks]: one run of
    the command per chunk, in the order of the chunks. *)
Definition dispatches (cmdArgs : list string) (chunks : list bytes)
  (evs : list Event) : Prop :=
  Forall2 (fun c e => exists r, e = EvRun (chunk_command cmdArgs c) r)
          chunks evs.

Definition all_ok (evs : list Event) : Prop :=
  Forall (fun e => ev_failed e = false) evs.

(** What a run of the single-level driver over [chunks] looks like from
    outside: [evs] are the calls it made. *)
Definition single_level_run {H : Host} (cmdArgs : list string)
  (chunks : list bytes) (fin : NextEnd) (p : Proc) (r : Res unit) (p' : Proc)
  : Prop :=
  exists evs,
    trace p' = trace p ++ evs /\
    dispatches cmdArgs (firstn (length evs) chunks) evs /\
    os_Stdout p' = os_Stdout p ++ concat (map ev_out evs) /\
    ((length evs = length chunks /\ all_ok evs /\
      exit_status r = match fin with EndEOF => Some 0 | EndErr _ => Some 1 end)
     \/
     (exists pre e, evs = pre ++ [e] /\ all_ok pre /\ ev_failed e = true /\
                    r = Exit 1)).

(** The process after the run of [cmd] returned [r] and left the world [e']. *)
Definition after_run {H : Host} (cmd : Cmd) (r : CmdResult) (e' : Env)
  (p : Proc) : Proc :=
  add_Stderr (cr_errout r) (add_event (EvRun cmd r) (set_env e' p)).

(** The chunks of a level whose input is [inp], and how their sequence ends. *)
Definition level_chunks {H : Host} (flags : Flags) (inp : bytes) : list bytes :=
  fst (Next_all (fst (select_chunker flags inp (polynomialInt flags)))).
Definition level_end {H : Host} (flags : Flags) (inp : bytes) : NextEnd :=
  snd (Next_all (fst (select_chunker flags inp (polynomialInt flags)))).

(** What the inner loop over [chunks] did between [s] and [s']; [evs] are the
    calls it made. The process's own output is untouched. *)
Definition capture_run {H : Host} (cmdArgs : list string) (chunks : list bytes)
  (fin : NextEnd) (n : Z) (s : St) (r : Res Z) (s' : St) (evs : list Event)
  : Prop :=
  trace (proc s') = trace (proc s) ++ evs /\
  dispatches cmdArgs (firstn (length evs) chunks) evs /\
  os_Stdout (proc s') = os_Stdout (proc s) /\
  os_Stdin (proc s') = os_Stdin (proc s) /\
  input s' = input s /\
  iteration s' = iteration s /\
  ((length evs = length chunks /\ all_ok evs /\
    summaryData s' = summaryData s ++ concat (map ev_out evs) /\
    r = match fin with
        | EndEOF => Ret (count_up (length chunks) n)
        | EndErr _ => Exit 1
        end)
   \/
   (exists pre e, evs = pre ++ [e] /\ all_ok pre /\ ev_failed e = true /\
                  r = Exit 1 /\
                  summaryData s' = summaryData s ++ concat (map ev_out pre))).

(** The contract of the chunk source: the chunks of a stream that ends
    normally are not empty and, put end to end, give the stream back. *)
Definition chunk_source_contract {H : Host} : Prop :=
  forall rd pol mn mx bits chunks,
    Next_all (SetAverageBits (NewWithBoundaries rd pol mn mx) bits)
      = (chunks, EndEOF) ->
    concat chunks = rd /\ Forall (fun c => c <> []) chunks.

Section RunVocabulary.
Context {H : Host}.
Variable flags : Flags.
Variable cmdArgs : list string.

(** The variables as [main] sets them before the outer loop. *)
Definition loop_entry (s : St) : St :=
  mkSt (proc s) [] [] (os_Stdin (proc s)) 0.

(** [s] is where level [k] of the run that entered the loop at [s0] starts:
    the [k] levels before it all went on to a next level. *)
Inductive level_of_run (s0 : St) : nat -> St -> Prop :=
| run_first : level_of_run s0 O s0
| run_next k s s' :
    level_of_run s0 k s ->
    level flags cmdArgs (polynomialInt flags) s = (Ret false, s') ->
    level_of_run s0 (S k) s'.

(** What the final write did between [s1] and [s']. *)
Definition written_out (s1 : St) (r : Res unit) (s' : St) : Prop :=
  trace (proc s') = trace (proc s1) /\
  match Stdout_Write (summaryData s1) (env (proc s1)) with
  | ((_, None), _) =>
      r = Ret tt /\
      os_Stdout (proc s') = os_Stdout (proc s1) ++ summaryData s1
  | ((k, Some _), _) =>
      r = Exit 1 /\
      os_Stdout (proc s') = os_Stdout (proc s1) ++ firstn k (summaryData s1)
  end.

(** The run was cut short by a failing dispatch [e]: [done] are the
    dispatches of the level in progress that came before it, [before] those
    of the earlier levels; [s'] is the state the process exits in. *)
Definition failed_in_level (evs : list Event) (r : Res unit) (s' : St) : Prop :=
  r = Exit 1 /\
  exists before done e,
    evs = before ++ done ++ [e] /\
    all_ok (before ++ done) /\
    ev_failed e = true /\
    dispatches cmdArgs
      (firstn (S (length done)) (level_chunks flags (input s')))
      (done ++ [e]) /\
    summaryData s' =
      Go.fmt_d_nl (iteration s') ++ concat (map ev_out done).

End RunVocabulary.

(** ** Further vocabulary: what a call read and wrote, and the diagnostics *)

(** The error output of the child of a dispatch, forwarded to the process's
    own error output. *)
Definition ev_errout (e : Event) : bytes :=
  match e with EvRun _ r => cr_errout r | _ => [] end.

(** The bytes a dispatch fed to its child. *)
Definition ev_input (e : Event) : bytes :=
  match e with EvRun c _ => Stdin c | _ => [] end.

(** The runs of the command on the chunks, one after the other, each in
    the world the run before it left, up to the first that fails: the calls
    with the results [exec_Run] gives, and the world after the last. *)
Fixpoint runs {H : Host} (cmdArgs : list string) (chunks : list bytes)
  (e : Env) : list Event * Env :=
  match chunks with
  | [] => ([], e)
  | chunk :: rest =>
      let cmd := chunk_command cmdArgs chunk in
      let (res, e1) := exec_Run cmd e in
      match cr_err res with
      | Some _ => ([EvRun cmd res], e1)
      | None =>
          let (evs, e2) := runs cmdArgs rest e1 in
          (EvRun cmd res :: evs, e2)
      end
  end.

(** What the reduction driver keeps of the calls [evs]: the outputs of those
    that did not fail, in order. *)
Definition captured (evs : list Event) : bytes :=
  concat (map ev_out (filter (fun e => negb (ev_failed e)) evs)).

(** The diagnostics of the chunk loops. *)
Definition msg_next (e : string) : bytes :=
  Go.fmt_s_nl "error getting next data chunk: " e.
Definition msg_run (e : string) : bytes :=
  Go.fmt_s_nl "error running chunk processing command: " e.
Definition msg_reducible : bytes :=
  Go.text "polynomial is not irreducible, it is not suitable for content chunking"
  ++ [Go.newline].

(** The check action and nothing else ran from [p] to [p']: one call of the
    irreducibility test on the polynomial of the flags, nothing printed but
    the verdict when it is negative. *)
Definition checked {H : Host} {A} (flags : Flags) (p : Proc) (r : Res A)
  (p' : Proc) : Prop :=
  trace p' = trace p ++ [EvIrreducible (polynomialInt flags)] /\
  os_Stdout p' = os_Stdout p /\
  env p' = env p /\
  if Irreducible (polynomialInt flags)
  then exit_status r = Some 0 /\ os_Stderr p' = os_Stderr p
  else exit_status r = Some 1 /\ os_Stderr p' = os_Stderr p ++ msg_reducible.

(** Between [p] and [p'] the process's error output received the error
    output of the children, in the order of the calls [evs], and then the
    diagnostic [diag]. *)
Definition stderr_grew {H : Host} (p p' : Proc) (evs : list Event)
  (diag : bytes) : Prop :=
  trace p' = trace p ++ evs /\
  os_Stderr p' = os_Stderr p ++ concat (map ev_errout evs) ++ diag.

(** How a chunk loop over a sequence that ends in [fin] can end after the
    calls [evs]: all chunks dispatched and the end of the stream reached,
    all chunks dispatched and an error of the chunk source, or a failing
    dispatch as the last call. [ok] tells a normal end; [diag] is what the
    loop printed. *)
Definition loop_outcome (chunks : list bytes) (fin : NextEnd)
  (evs : list Event) (ok : bool) (diag : bytes) : Prop :=
  (ok = true /\ fin = EndEOF /\ all_ok evs /\ length evs = length chunks /\
   diag = [])
  \/
  (ok = false /\ all_ok evs /\ length evs = length chunks /\
   exists e, fin = EndErr e /\ diag = msg_next e)
  \/
  (ok = false /\
   exists pre c res e, evs = pre ++ [EvRun c res] /\ all_ok pre /\
                       cr_err res = Some e /\ diag = msg_run e).

Definition is_ret {A} (r : Res A) : bool :=
  match r with Ret _ => true | _ => false end.

(** Every call in [evs] is a run of the command line [cmdArgs] on some
    chunk. *)
Definition runs_of (cmdArgs : list string) (evs : list Event) : Prop :=
  Forall (fun e => exists chunk r, e = EvRun (chunk_command cmdArgs chunk) r)
         evs.

(** * Properties *)

(** ** Go arithmetic and formatting *)

Lemma wrap_int64_small z :
  - 2 ^ 63 <= z < 2 ^ 63 -> Go.wrap_int64 z = z.
Proof.
  intros Hz. unfold Go.wrap_int64.
  rewrite Z.mod_small; lia.
Qed.

Lemma wrap_int64_add_l a k :
  Go.wrap_int64 (Go.wrap_int64 a + k) = Go.wrap_int64 (a + k).
Proof.
  unfold Go.wrap_int64. f_equal.
  replace ((a + 2 ^ 63) mod 2 ^ 64 - 2 ^ 63 + k + 2 ^ 63)
    with ((a + 2 ^ 63) mod 2 ^ 64 + k) by lia.
  rewrite Zplus_mod_idemp_l. f_equal. lia.
Qed.

Lemma count_up_succ k n :
  count_up (S k) n = count_up k (Go.wrap_int (n + 1)).
Proof. unfold count_up. now rewrite Nat.iter_succ_r. Qed.

Lemma count_up_wrap k n :
  Go.wrap_int n = n -> count_up k n = Go.wrap_int (n + Z.of_nat k).
Proof.
  unfold count_up. change Go.wrap_int with Go.wrap_int64.
  intros Hn. induction k as [|k IH].
  - cbn [Nat.iter]. rewrite Z.add_0_r. now symmetry.
  - rewrite Nat.iter_succ, IH, wrap_int64_add_l. f_equal. lia.
Qed.

Lemma count_up_small k :
  Z.of_nat k < 2 ^ 63 -> count_up k 0 = Z.of_nat k.
Proof.
  intros Hk. rewrite count_up_wrap by reflexivity.
  unfold Go.wrap_int. apply wrap_int64_small. lia.
Qed.







(** ** Size profiles *)

Lemma select_chunker_profile {H : Host} flags input pol :
  select_chunker flags input pol =
  (chunker_of_profile (active_profile flags) input pol,
   maxSize (active_profile flags)).
Proof.
  unfold select_chunker, active_profile, chunker_of_profile.
  destruct (smallChunks flags); [reflexivity|].
  destruct (largeChunks flags); reflexivity.
Qed.

Lemma active_profile_in flags : In (active_profile flags) profiles.
Proof.
  unfold active_profile, profiles.
  destruct (smallChunks flags); [now left|].
  destruct (largeChunks flags); cbn; auto.
Qed.

(** C8. Each of the three size profiles has its minimum size strictly below
    its maximum size and the expected chunk size, two to the power of its
    average bits, between the two bounds (inclusive); and every chunker the
    programs build is built from one of these three. *)
Theorem size_profiles_invariant :
  Forall profile_ok profiles /\
  forall (H : Host) flags input pol,
    exists p, In p profiles /\ profile_ok p /\
      select_chunker flags input pol =
      (chunker_of_profile p input pol, maxSize p).
Proof.
  assert (Hall : Forall profile_ok profiles).
  { unfold profiles, profile_ok. repeat constructor; cbn; lia. }
  split; [exact Hall|].
  intros H flags input pol. exists (active_profile flags).
  split; [apply active_profile_in|].
  split; [|apply select_chunker_profile].
  eapply Forall_forall; [exact Hall | apply active_profile_in].
Qed.

(** C3, as the specification words it, fails: with both profile flags set
    the chunker is not the one of the large profile. *)
Lemma both_flags_not_large :
  fst (@select_chunker Demo.host (mkFlags false false true true default_polynomial)
         [] default_polynomial)
  <> @chunker_of_profile Demo.host large_profile [] default_polynomial.
Proof. cbv. discriminate. Qed.

(** C3, amended. With both the small-chunks and the large-chunks flag set,
    the small profile is the one applied to the chunk source: the small flag
    is tested first and the large flag only in its else branch. *)
Theorem both_flags_small {H : Host} flags input pol :
  smallChunks flags = true ->
  largeChunks flags = true ->
  select_chunker flags input pol =
  (chunker_of_profile small_profile input pol, SmallMaxSize).
Proof.
  intros Hs _. rewrite select_chunker_profile.
  unfold active_profile. now rewrite Hs.
Qed.

Lemma both_flags_small_witness :
  let flags := mkFlags false false true true default_polynomial in
  smallChunks flags = true /\ largeChunks flags = true /\
  @select_chunker Demo.host flags [x61] default_polynomial =
  (@chunker_of_profile Demo.host small_profile [x61] default_polynomial,
   SmallMaxSize).
Proof.
  intros flags. split; [reflexivity|]. split; [reflexivity|].
  apply (@both_flags_small Demo.host flags); reflexivity.
Defined.

(** ** The one-shot actions and the usage text *)

Ltac monad_step :=
  unfold bind, ret, gets, modify, os_Exit, out_of_fuel, Multicchunker.lift;
  cbn [fst snd].

Lemma bind_ret {S A B} (m : M S A) (k : A -> M S B) s a s1 :
  m s = (Ret a, s1) -> bind m k s = k a s1.
Proof. intros Hm. unfold bind. now rewrite Hm. Qed.

Lemma bind_exit {S A B} (m : M S A) (k : A -> M S B) s c s1 :
  m s = (Exit c, s1) -> bind m k s = (Exit c, s1).
Proof. intros Hm. unfold bind. now rewrite Hm. Qed.

Lemma bind_out_of_fuel {S A B} (m : M S A) (k : A -> M S B) s s1 :
  m s = (OutOfFuel, s1) -> bind m k s = (OutOfFuel, s1).
Proof. intros Hm. unfold bind. now rewrite Hm. Qed.

Lemma exit_status_returned {A} (r : Res A) :
  exit_status (returned r) = exit_status r.
Proof. now destruct r. Qed.

Lemma one_shot_new {H : Host} flags p :
  newPolynomial flags = true ->
  fst (one_shot flags p) <> Ret false /\
  generated p (fst (one_shot flags p)) (snd (one_shot flags p)).
Proof.
  intros Hn. unfold one_shot, generated. rewrite Hn.
  unfold chunker_RandomPolynomial, os_Stdout_Write, Fprint_Stderr.
  monad_step.
  destruct (RandomPolynomial (env p)) as [[pol | err] e1]; cbn.
  - destruct (Stdout_Write (Go.fmt_d_nl pol) e1) as [[n [e|]] e2]; cbn;
      (split; [discriminate | split; [reflexivity | split; reflexivity]]).
  - split; [discriminate | split; [reflexivity | split; reflexivity]].
Qed.

Lemma one_shot_none {H : Host} flags p :
  newPolynomial flags = false ->
  checkPolynomial flags = false ->
  one_shot flags p = (Ret false, p).
Proof. intros Hn Hc. unfold one_shot. now rewrite Hn, Hc. Qed.

Lemma cchunker_main_returned {H : Host} flags cmdArgs p :
  fst (one_shot flags p) <> Ret false ->
  Cchunker.main flags cmdArgs p =
  (returned (fst (one_shot flags p)), snd (one_shot flags p)).
Proof.
  intros Hr. unfold Cchunker.main. monad_step.
  destruct (one_shot flags p) as [[[|] | c |] p']; cbn in *;
    try reflexivity. now contradiction Hr.
Qed.

Lemma multicchunker_main_returned {H : Host} fuel flags cmdArgs s :
  fst (one_shot flags (Multicchunker.proc s)) <> Ret false ->
  Multicchunker.main fuel flags cmdArgs s =
  (returned (fst (one_shot flags (Multicchunker.proc s))),
   Multicchunker.set_proc (snd (one_shot flags (Multicchunker.proc s))) s).
Proof.
  intros Hr. unfold Multicchunker.main. monad_step.
  destruct (one_shot flags (Multicchunker.proc s)) as [[[|] | c |] p'];
    cbn in *; try reflexivity. now contradiction Hr.
Qed.

(** C10. With both the generate-new-polynomial and the check-polynomial flag
    set, either program performs the generate action only: the one call that
    leaves the process is the polynomial generator, so the irreducibility
    check never runs; the polynomial is printed on standard output and the
    program exits (status 0, or 1 when generating or printing failed). *)
Theorem generate_before_check {H : Host} flags cmdArgs :
  newPolynomial flags = true ->
  checkPolynomial flags = true ->
  (forall p,
     let r := Cchunker.main flags cmdArgs p in
     generated p (fst r) (snd r) /\
     Forall (fun e => is_irreducible_check e = false)
            (skipn (length (trace p)) (trace (snd r)))) /\
  (forall fuel s,
     let r := Multicchunker.main fuel flags cmdArgs s in
     generated (Multicchunker.proc s) (fst r) (Multicchunker.proc (snd r)) /\
     Forall (fun e => is_irreducible_check e = false)
            (skipn (length (trace (Multicchunker.proc s)))
                   (trace (Multicchunker.proc (snd r))))).
Proof.
  intros Hn _.
  assert (Hskip : forall (l : list Event) e, skipn (length l) (l ++ [e]) = [e]).
  { intros l e. rewrite skipn_app, skipn_all, Nat.sub_diag. reflexivity. }
  split.
  - intros p r. subst r.
    destruct (one_shot_new flags p Hn) as [Hr Hg].
    rewrite (cchunker_main_returned _ _ _ Hr). cbn [fst snd].
    assert (Hg' : generated p (returned (fst (one_shot flags p)))
                              (snd (one_shot flags p))).
    { unfold generated in *. now rewrite exit_status_returned. }
    split; [exact Hg'|].
    destruct Hg' as [-> _]. rewrite Hskip. now repeat constructor.
  - intros fuel s r. subst r.
    destruct (one_shot_new flags (Multicchunker.proc s) Hn) as [Hr Hg].
    rewrite (multicchunker_main_returned _ _ _ _ Hr). cbn [fst snd].
    cbn [Multicchunker.set_proc Multicchunker.proc].
    assert (Hg' : generated (Multicchunker.proc s)
                    (returned (fst (one_shot flags (Multicchunker.proc s))))
                    (snd (one_shot flags (Multicchunker.proc s)))).
    { unfold generated in *. now rewrite exit_status_returned. }
    split; [exact Hg'|].
    destruct Hg' as [-> _]. rewrite Hskip. now repeat constructor.
Qed.

Lemma generate_before_check_witness :
  let flags := mkFlags true true false false default_polynomial in
  newPolynomial flags = true /\ checkPolynomial flags = true /\
  let r := Cchunker.main flags Demo.sh (Demo.proc0 [x61]) in
  exit_status (fst r) = Some 0 /\
  os_Stdout (snd r) = Go.fmt_d_nl default_polynomial /\
  trace (snd r) = [EvRandomPolynomial].
Proof.
  intros flags. split; [reflexivity|]. split; [reflexivity|].
  destruct (@generate_before_check Demo.host flags Demo.sh eq_refl eq_refl)
    as [Hc _].
  destruct (Hc (Demo.proc0 [x61])) as [[Ht Hg] _].
  cbn in Hg. destruct Hg as [Hs Ho].
  intros r. subst r. repeat split; assumption.
Defined.




(** ** Dispatching the chunks of one stream *)

Lemma cchunker_chunk_loop_cons {H : Host} cmdArgs chunk rest fin p :
  Cchunker.chunk_loop cmdArgs (chunk :: rest) fin p =
  let cmd := chunk_command cmdArgs chunk in
  let r := fst (exec_Run cmd (env p)) in
  let p1 := add_Stdout (cr_out r)
              (add_Stderr (cr_errout r)
                 (add_event (EvRun cmd r)
                    (set_env (snd (exec_Run cmd (env p))) p))) in
  match cr_err r with
  | Some e =>
      (Exit 1,
       add_Stderr (Go.fmt_s_nl "error running chunk processing command: " e) p1)
  | None => Cchunker.chunk_loop cmdArgs rest fin p1
  end.
Proof.
  cbn [Cchunker.chunk_loop]. unfold cmd_Run, Fprint_Stderr. monad_step.
  destruct (exec_Run (chunk_command cmdArgs chunk) (env p)) as [r e'].
  cbn [fst snd]. destruct (cr_err r); reflexivity.
Qed.

Lemma cchunker_chunk_loop_spec {H : Host} cmdArgs fin chunks : forall p,
  single_level_run cmdArgs chunks fin p
    (fst (Cchunker.chunk_loop cmdArgs chunks fin p))
    (snd (Cchunker.chunk_loop cmdArgs chunks fin p)).
Proof.
  induction chunks as [|chunk rest IH]; intros p.
  - exists []. cbn [Cchunker.chunk_loop length firstn map concat].
    destruct fin; cbn; rewrite !app_nil_r;
      (repeat split; [constructor | left; repeat split; constructor]).
  - rewrite cchunker_chunk_loop_cons. cbv zeta.
    set (cmd := chunk_command cmdArgs chunk).
    set (r := fst (exec_Run cmd (env p))).
    set (p1 := add_Stdout _ _).
    destruct (cr_err r) eqn:Er.
    + exists [EvRun cmd r]. cbn. rewrite app_nil_r.
      repeat split.
      * constructor; [now exists r | constructor].
      * right. exists [], (EvRun cmd r). cbn. rewrite Er.
        repeat split. constructor.
    + destruct (IH p1) as (evs & Ht & Hd & Ho & Hcases).
      exists (EvRun cmd r :: evs). cbn [length firstn map concat].
      rewrite Ht, Ho. subst p1. cbn. rewrite <- !app_assoc. cbn.
      repeat split.
      * constructor; [now exists r | exact Hd].
      * destruct Hcases as [(Hl & Hok & Hs) | (pre & e & He & Hok & Hf & Hr)].
        -- left. repeat split; [now rewrite Hl | | exact Hs].
           constructor; [cbn; now rewrite Er | exact Hok].
        -- right. exists (EvRun cmd r :: pre), e. subst evs.
           repeat split; try assumption.
           constructor; [cbn; now rewrite Er | exact Hok].
Qed.

(** The calls of the loop are the runs of the command on the chunks, with
    the results [exec_Run] gives them, and every output has gone to standard
    output. *)
Lemma cchunker_chunk_loop_runs {H : Host} cmdArgs fin chunks : forall p,
  let r := Cchunker.chunk_loop cmdArgs chunks fin p in
  trace (snd r) = trace p ++ fst (runs cmdArgs chunks (env p)) /\
  env (snd r) = snd (runs cmdArgs chunks (env p)) /\
  os_Stdout (snd r) =
    os_Stdout p ++ concat (map ev_out (fst (runs cmdArgs chunks (env p)))).
Proof.
  induction chunks as [|chunk rest IH]; intros p r; subst r.
  - cbn [Cchunker.chunk_loop runs fst snd map concat].
    destruct fin; cbn; rewrite !app_nil_r; repeat split.
  - rewrite cchunker_chunk_loop_cons. cbv zeta. cbn [runs].
    destruct (exec_Run (chunk_command cmdArgs chunk) (env p)) as [res e1].
    cbn [fst snd].
    destruct (cr_err res) as [e|].
    + cbn. rewrite app_nil_r. repeat split.
    + specialize (IH (add_Stdout (cr_out res)
                        (add_Stderr (cr_errout res)
                           (add_event (EvRun (chunk_command cmdArgs chunk) res)
                              (set_env e1 p))))).
      cbv zeta in IH. cbn [env add_Stdout add_Stderr add_event set_env] in IH.
      destruct IH as (Ht & He & Ho).
      destruct (runs cmdArgs rest e1) as [evs e2]. cbn [fst snd] in *.
      rewrite Ht, He, Ho. cbn. rewrite <- !app_assoc. repeat split.
Qed.



(** ** The reduction driver: one dispatch *)

Lemma chunk_loop_cons {H : Host} cmdArgs chunk rest fin n s :
  chunk_loop cmdArgs (chunk :: rest) fin n s =
  let cmd := chunk_command cmdArgs chunk in
  let r := fst (exec_Run cmd (env (proc s))) in
  let p1 := after_run cmd r (snd (exec_Run cmd (env (proc s)))) (proc s) in
  match cr_err r with
  | Some e =>
      (Exit 1,
       mkSt
         (add_Stderr (Go.fmt_s_nl "error running chunk processing command: " e) p1)
         (summaryData s) (cr_out r) (input s) (iteration s))
  | None =>
      chunk_loop cmdArgs rest fin (Go.wrap_int (n + 1))
        (mkSt p1 (summaryData s ++ cr_out r) (cr_out r) (input s) (iteration s))
  end.
Proof.
  cbn [chunk_loop].
  unfold Run_capture, summaryData_Write, cmd_Run, Fprint_Stderr, after_run.
  monad_step. cbn [proc set_summaryLine].
  destruct (exec_Run (chunk_command cmdArgs chunk) (env (proc s))) as [r e'].
  cbn [fst snd].
  destruct (cr_err r); reflexivity.
Qed.

Lemma captured_cons_ok e evs :
  ev_failed e = false -> captured (e :: evs) = ev_out e ++ captured evs.
Proof. intros He. unfold captured. cbn [filter]. now rewrite He. Qed.

Lemma captured_all_ok evs :
  all_ok evs -> captured evs = concat (map ev_out evs).
Proof.
  induction 1 as [|e evs He _ IH]; [reflexivity|].
  rewrite (captured_cons_ok _ _ He), IH. reflexivity.
Qed.

(** The calls of the inner loop are the runs of the command on the chunks,
    with the results [exec_Run] gives them; the summary grows by the outputs
    of the runs that succeeded and the capture buffer ends with the output
    of the last run. *)
Lemma chunk_loop_runs {H : Host} cmdArgs fin chunks : forall n s,
  let r := chunk_loop cmdArgs chunks fin n s in
  let evs := fst (runs cmdArgs chunks (env (proc s))) in
  trace (proc (snd r)) = trace (proc s) ++ evs /\
  env (proc (snd r)) = snd (runs cmdArgs chunks (env (proc s))) /\
  summaryData (snd r) = summaryData s ++ captured evs /\
  summaryLine (snd r) =
    match evs with
    | [] => summaryLine s
    | _ :: _ => ev_out (last evs EvRandomPolynomial)
    end.
Proof.
  induction chunks as [|chunk rest IH]; intros n s r evs; subst r evs.
  - cbn [chunk_loop runs fst snd].
    destruct fin; cbn; rewrite !app_nil_r; repeat split.
  - rewrite chunk_loop_cons. cbv zeta. cbn [runs].
    destruct (exec_Run (chunk_command cmdArgs chunk) (env (proc s)))
      as [res e1].
    cbn [fst snd]. destruct (cr_err res) as [e|] eqn:Er.
    + unfold captured, after_run. cbn. rewrite Er. cbn.
      rewrite app_nil_r. repeat split.
    + specialize (IH (Go.wrap_int (n + 1))
                     (mkSt (after_run (chunk_command cmdArgs chunk) res e1
                              (proc s))
                           (summaryData s ++ cr_out res) (cr_out res)
                           (input s) (iteration s))).
      cbv zeta in IH.
      cbn [proc summaryData summaryLine env after_run add_Stderr add_event
           set_env] in IH.
      destruct IH as (Ht & He & Hd & Hl).
      destruct (runs cmdArgs rest e1) as [evs e2]. cbn [fst snd] in *.
      rewrite Ht, He, Hd, Hl.
      rewrite captured_cons_ok by (cbn; now rewrite Er).
      unfold after_run. cbn [trace add_Stderr add_event set_env ev_out].
      rewrite <- !app_assoc.
      repeat split. now destruct evs.
Qed.

(** C9. Whatever the capture buffer [summaryLine] holds when the chunk loop
    starts, left over from an earlier dispatch of this or of an earlier
    level, it is reset before every dispatch: the bytes the loop appends to
    the summary are, chunk after chunk, the standard output the sub-process
    of that chunk really produced (nothing for a failing last dispatch) and
    nothing else, and the capture buffer ends with the output of the last
    sub-process alone. *)
Theorem capture_has_no_residue {H : Host} cmdArgs chunks fin n s :
  let r := chunk_loop cmdArgs chunks fin n s in
  let evs := fst (runs cmdArgs chunks (env (proc s))) in
  trace (proc (snd r)) = trace (proc s) ++ evs /\
  summaryData (snd r) = summaryData s ++ captured evs /\
  (all_ok evs ->
   summaryData (snd r) = summaryData s ++ concat (map ev_out evs)) /\
  summaryLine (snd r) =
    match evs with
    | [] => summaryLine s
    | _ :: _ => ev_out (last evs EvRandomPolynomial)
    end.
Proof.
  intros r evs. subst r evs.
  destruct (chunk_loop_runs cmdArgs fin chunks n s) as (Ht & _ & Hd & Hl).
  split; [exact Ht|]. split; [exact Hd|]. split; [|exact Hl].
  intros Hok. now rewrite Hd, (captured_all_ok _ Hok).
Qed.

Lemma capture_has_no_residue_witness :
  let s := @mkSt Demo.host (Demo.proc0 []) (Go.text "0") (Go.text "stale") [] 0 in
  let r := chunk_loop Demo.sh [Go.text "aaaaaaaa"; Go.text "bb"] EndEOF 0 s in
  all_ok (fst (@runs Demo.host Demo.sh [Go.text "aaaaaaaa"; Go.text "bb"]
                 (env (proc s)))) /\
  summaryData (snd r) = [x30; x68; Go.newline; x68; Go.newline] /\
  summaryLine (snd r) = [x68; Go.newline].
Proof.
  intros s r.
  assert (Hok : all_ok (fst (@runs Demo.host Demo.sh
                               [Go.text "aaaaaaaa"; Go.text "bb"]
                               (env (proc s)))))
    by (repeat constructor).
  split; [exact Hok|].
  destruct (@capture_has_no_residue Demo.host Demo.sh
              [Go.text "aaaaaaaa"; Go.text "bb"] EndEOF 0 s)
    as (_ & _ & Hd & Hl).
  split; [exact (Hd Hok) | exact Hl].
Defined.

(** ** The reduction driver: one pass *)

Lemma chunk_loop_spec {H : Host} cmdArgs fin chunks : forall n s,
  exists evs,
    capture_run cmdArgs chunks fin n s
      (fst (chunk_loop cmdArgs chunks fin n s))
      (snd (chunk_loop cmdArgs chunks fin n s)) evs.
Proof.
  induction chunks as [|chunk rest IH]; intros n s.
  - exists []. unfold capture_run.
    cbn [chunk_loop length firstn map concat].
    change (count_up 0 n) with n.
    destruct fin; cbn; rewrite !app_nil_r;
      (repeat split; [constructor | left; repeat split; constructor]).
  - rewrite chunk_loop_cons. cbv zeta.
    set (cmd := chunk_command cmdArgs chunk).
    set (r := fst (exec_Run cmd (env (proc s)))).
    set (p1 := after_run _ _ _ _).
    destruct (cr_err r) eqn:Er.
    + exists [EvRun cmd r]. unfold capture_run. cbn.
      repeat split.
      * constructor; [now exists r | constructor].
      * right. exists [], (EvRun cmd r). cbn. rewrite Er, app_nil_r.
        repeat split. constructor.
    + destruct (IH (Go.wrap_int (n + 1))
                  (mkSt p1 (summaryData s ++ cr_out r) (cr_out r)
                        (input s) (iteration s)))
        as (evs & Ht & Hd & Ho & Hi & Hin & Hit & Hcases).
      exists (EvRun cmd r :: evs). unfold capture_run.
      cbn [length firstn map concat].
      rewrite Ht, Ho, Hi, Hin, Hit. subst p1. cbn. rewrite <- !app_assoc. cbn.
      repeat split.
      * constructor; [now exists r | exact Hd].
      * destruct Hcases as [(Hl & Hok & Hs & Hr)
                           | (pre & e & He & Hok & Hf & Hr & Hs)].
        -- left. rewrite Hs, Hr, count_up_succ. cbn. rewrite <- app_assoc.
           repeat split; [now rewrite Hl | ].
           constructor; [cbn; now rewrite Er | exact Hok].
        -- right. exists (EvRun cmd r :: pre), e. subst evs.
           rewrite Hs. cbn. rewrite <- app_assoc.
           repeat split; try assumption.
           constructor; [cbn; now rewrite Er | exact Hok].
Qed.

Lemma pass_unfold {H : Host} flags cmdArgs s :
  pass flags cmdArgs (polynomialInt flags) s =
  chunk_loop cmdArgs (level_chunks flags (input s)) (level_end flags (input s)) 0
    (set_summaryData (summaryData s ++ Go.fmt_d_nl (iteration s)) s).
Proof.
  unfold pass, summaryData_Write, level_chunks, level_end. monad_step.
  cbn [Go.Buffer_Write input set_summaryData].
  destruct (select_chunker flags (input s) (polynomialInt flags)) as [ck buf].
  cbn [fst]. destruct (Next_all ck) as [chunks fin]. reflexivity.
Qed.

(** A pass from a state with an empty summary buffer. *)
Lemma pass_spec {H : Host} flags cmdArgs s :
  summaryData s = [] ->
  exists evs,
    capture_run cmdArgs (level_chunks flags (input s))
      (level_end flags (input s)) 0
      (set_summaryData (Go.fmt_d_nl (iteration s)) s)
      (fst (pass flags cmdArgs (polynomialInt flags) s))
      (snd (pass flags cmdArgs (polynomialInt flags) s)) evs.
Proof.
  intros Hs. rewrite pass_unfold, Hs. cbn [app]. apply chunk_loop_spec.
Qed.

(** ** The reduction driver: from level to level *)

Section Levels.
Context {H : Host}.
Variable flags : Flags.
Variable cmdArgs : list string.

Let polynomial := polynomialInt flags.

Lemma write_result_spec s1 :
  written_out s1 (fst (write_result s1)) (snd (write_result s1)).
Proof.
  unfold written_out, write_result, os_Stdout_Write, Fprint_Stderr.
  monad_step.
  destruct (Stdout_Write (summaryData s1) (env (proc s1))) as [[k [e|]] e'];
    cbn; repeat split.
Qed.

Lemma level_unfold s :
  level flags cmdArgs polynomial s =
  match pass flags cmdArgs polynomial s with
  | (Ret n, s1) =>
      if (n =? 0) || (n =? 1) then (Ret true, s1)
      else (Ret false,
            mkSt (proc s1) [] (summaryLine s1) (summaryData s1)
                 (Go.wrap_int64 (iteration s1 + 1)))
  | (Exit c, s1) => (Exit c, s1)
  | (OutOfFuel, s1) => (OutOfFuel, s1)
  end.
Proof.
  unfold level, next_level. monad_step.
  destruct (pass flags cmdArgs polynomial s) as [[n | c |] s1]; try reflexivity.
  destruct ((n =? 0) || (n =? 1)); reflexivity.
Qed.

Lemma loop_unfold fuel s :
  loop (S fuel) flags cmdArgs polynomial s =
  match level flags cmdArgs polynomial s with
  | (Ret true, s1) => (Ret tt, s1)
  | (Ret false, s1) => loop fuel flags cmdArgs polynomial s1
  | (Exit c, s1) => (Exit c, s1)
  | (OutOfFuel, s1) => (OutOfFuel, s1)
  end.
Proof.
  cbn [loop]. monad_step.
  destruct (level flags cmdArgs polynomial s) as [[[|] | c |] s1]; reflexivity.
Qed.

Lemma main_unfold fuel s :
  newPolynomial flags = false ->
  checkPolynomial flags = false ->
  cmdArgs <> [] ->
  main fuel flags cmdArgs s =
  (loop fuel flags cmdArgs polynomial ;; write_result) (loop_entry s).
Proof.
  intros Hn Hc Ha. unfold main. monad_step.
  rewrite (one_shot_none _ _ Hn Hc). cbn [fst snd].
  destruct cmdArgs as [|a args]; [now contradiction Ha|].
  cbn [length Nat.eqb]. destruct s. reflexivity.
Qed.

(** A level that went on: the pass returned a counter other than 0 and 1. *)
Lemma level_continues s s' :
  level flags cmdArgs polynomial s = (Ret false, s') ->
  exists n s1,
    pass flags cmdArgs polynomial s = (Ret n, s1) /\
    (n =? 0) || (n =? 1) = false /\
    s' = mkSt (proc s1) [] (summaryLine s1) (summaryData s1)
              (Go.wrap_int64 (iteration s1 + 1)).
Proof.
  rewrite level_unfold.
  destruct (pass flags cmdArgs polynomial s) as [[n | c |] s1];
    try discriminate.
  destruct ((n =? 0) || (n =? 1)) eqn:En; [discriminate|].
  intros [= <-]. now exists n, s1.
Qed.

(** Every level of a run starts with an empty summary buffer, an untouched
    standard output and the iteration equal to its index (as an [int64]). *)
Lemma level_of_run_inv s0 k s :
  level_of_run flags cmdArgs (loop_entry s0) k s ->
  summaryData s = [] /\
  os_Stdout (proc s) = os_Stdout (proc s0) /\
  iteration s = Go.wrap_int64 (Z.of_nat k).
Proof.
  induction 1 as [|k s s' _ (IHs & IHo & IHi) Hl].
  - repeat split.
  - destruct (level_continues _ _ Hl) as (n & s1 & Hp & _ & ->).
    destruct (pass_spec flags cmdArgs s IHs)
      as (evs & _ & _ & Ho & _ & _ & Hi & _).
    fold polynomial in Ho, Hi. rewrite Hp in Ho, Hi. cbn in Ho, Hi.
    cbn. rewrite Hi, IHi, wrap_int64_add_l. repeat split.
    + now rewrite Ho.
    + f_equal. lia.
Qed.

Lemma level_of_run_iteration s0 k s :
  level_of_run flags cmdArgs (loop_entry s0) k s ->
  Z.of_nat k <= Go.MaxInt64 ->
  iteration s = Z.of_nat k.
Proof.
  intros Hr Hk. destruct (level_of_run_inv _ _ _ Hr) as (_ & _ & ->).
  apply wrap_int64_small. unfold Go.MaxInt64 in Hk. lia.
Qed.

(** With fuel for them, the outer loop runs through the levels of a run. *)
Lemma loop_reaches s0 k s :
  level_of_run flags cmdArgs s0 k s ->
  forall fuel,
    loop (k + fuel) flags cmdArgs polynomial s0 =
    loop fuel flags cmdArgs polynomial s.
Proof.
  induction 1 as [|k s s' _ IH Hl]; intros fuel; [reflexivity|].
  rewrite Nat.add_succ_comm, IH, loop_unfold.
  fold polynomial in Hl. now rewrite Hl.
Qed.

(** C1. In every run of the reduction driver, once the chunk loop of a level
    is exhausted with counter [n]: if [n] is 0 or 1 the outer loop ends and
    what remains of [main] is the write of the summary buffer to standard
    output, which until then is untouched; if [n] is 2 or more the next
    level starts with the summary as its input, the iteration one higher (up
    to the largest [int64], where it wraps) and an empty summary buffer, and
    the outer loop goes on from there. *)
Theorem level_end_decision s0 k s n s1 :
  level_of_run flags cmdArgs (loop_entry s0) k s ->
  pass flags cmdArgs polynomial s = (Ret n, s1) ->
  (n = 0 \/ n = 1 ->
     level flags cmdArgs polynomial s = (Ret true, s1) /\
     (forall fuel,
        (loop (S fuel) flags cmdArgs polynomial ;; write_result) s =
        write_result s1) /\
     written_out s1 (fst (write_result s1)) (snd (write_result s1)) /\
     os_Stdout (proc s1) = os_Stdout (proc s0) /\
     (newPolynomial flags = false -> checkPolynomial flags = false ->
      cmdArgs <> [] ->
      forall fuel, main (k + S fuel) flags cmdArgs s0 = write_result s1)) /\
  (2 <= n ->
     exists s2,
       level flags cmdArgs polynomial s = (Ret false, s2) /\
       input s2 = summaryData s1 /\
       iteration s2 = Go.wrap_int64 (iteration s1 + 1) /\
       (Z.of_nat k < Go.MaxInt64 ->
        iteration s1 = Z.of_nat k /\ iteration s2 = iteration s1 + 1) /\
       summaryData s2 = [] /\
       proc s2 = proc s1 /\
       level_of_run flags cmdArgs (loop_entry s0) (S k) s2 /\
       forall fuel,
         loop (S fuel) flags cmdArgs polynomial s =
         loop fuel flags cmdArgs polynomial s2).
Proof.
  intros Hr Hp.
  destruct (level_of_run_inv _ _ _ Hr) as (Hs & Ho & _).
  destruct (pass_spec flags cmdArgs s Hs)
    as (evs & _ & _ & Ho1 & _ & _ & Hi1 & _).
  fold polynomial in Ho1, Hi1. rewrite Hp in Ho1, Hi1. cbn in Ho1, Hi1.
  split.
  - intros Hn.
    assert (Hl : level flags cmdArgs polynomial s = (Ret true, s1)).
    { rewrite level_unfold, Hp. now destruct Hn as [-> | ->]. }
    split; [exact Hl|]. split; [|split; [|split]].
    + intros fuel.
      apply (bind_ret (loop (S fuel) flags cmdArgs polynomial)
                      (fun _ => write_result) s tt s1).
      now rewrite loop_unfold, Hl.
    + apply write_result_spec.
    + now rewrite Ho1.
    + intros Hnp Hcp Hne fuel.
      rewrite (main_unfold (k + S fuel) s0 Hnp Hcp Hne).
      apply (bind_ret (loop (k + S fuel) flags cmdArgs polynomial)
                      (fun _ => write_result) (loop_entry s0) tt s1).
      now rewrite (loop_reaches _ _ _ Hr), loop_unfold, Hl.
  - intros Hn.
    assert (Hl : level flags cmdArgs polynomial s =
                 (Ret false,
                  mkSt (proc s1) [] (summaryLine s1) (summaryData s1)
                       (Go.wrap_int64 (iteration s1 + 1)))).
    { rewrite level_unfold, Hp.
      replace ((n =? 0) || (n =? 1)) with false; [reflexivity|].
      symmetry. apply orb_false_intro; apply Z.eqb_neq; lia. }
    eexists. split; [exact Hl|].
    split; [reflexivity|]. split; [reflexivity|].
    split; [|split; [reflexivity|]; split; [reflexivity|]; split].
    + intros Hk.
      pose proof (level_of_run_iteration _ _ _ Hr ltac:(lia)) as Hi.
      cbn [iteration]. rewrite Hi1, Hi. split; [reflexivity|].
      apply wrap_int64_small. unfold Go.MaxInt64 in Hk. lia.
    + econstructor; eassumption.
    + intros fuel. now rewrite loop_unfold, Hl.
Qed.


End Levels.

(** ** The reduction driver: whole runs *)

Lemma all_ok_no_failure evs :
  all_ok evs -> Exists (fun e => ev_failed e = true) evs -> False.
Proof.
  intros Hok Hex. apply Exists_exists in Hex. destruct Hex as (e & Hin & Hf).
  pose proof (proj1 (Forall_forall _ _) Hok e Hin) as Hn. cbn in Hn. congruence.
Qed.

Lemma one_shot_check {H : Host} flags p :
  newPolynomial flags = false ->
  checkPolynomial flags = true ->
  fst (one_shot flags p) <> Ret false /\
  trace (snd (one_shot flags p)) = trace p ++ [EvIrreducible (polynomialInt flags)].
Proof.
  intros Hn Hc. unfold one_shot. rewrite Hn, Hc.
  unfold Pol_Irreducible, Fprint_Stderr. monad_step.
  destruct (Irreducible (polynomialInt flags)); cbn; split;
    (discriminate || reflexivity).
Qed.

Lemma multicchunker_no_command {H : Host} fuel flags s :
  newPolynomial flags = false ->
  checkPolynomial flags = false ->
  main fuel flags [] s = lift usage s.
Proof.
  intros Hn Hc. unfold main. monad_step.
  rewrite (one_shot_none _ _ Hn Hc). reflexivity.
Qed.


Lemma empty_stream_no_chunk {H : Host} flags :
  chunk_source_contract ->
  level_end flags [] = EndEOF ->
  level_chunks flags [] = [].
Proof.
  unfold level_end, level_chunks. rewrite select_chunker_profile.
  unfold chunker_of_profile. cbn [fst]. intros Hc He.
  destruct (Next_all _) as [chunks fin] eqn:En. cbn [fst snd] in *. subst fin.
  destruct (Hc _ _ _ _ _ _ En) as [Hcat Hne].
  destruct chunks as [|c chunks]; [reflexivity|].
  cbn in Hcat. apply app_eq_nil in Hcat. destruct Hcat as [-> _].
  inversion Hne as [|? ? Hc0 _]. now contradiction Hc0.
Qed.

Section Runs.
Context {H : Host}.
Variable flags : Flags.
Variable cmdArgs : list string.

Lemma loop_failure fuel : forall s,
  summaryData s = [] ->
  let r := loop fuel flags cmdArgs (polynomialInt flags) s in
  exists evs,
    trace (proc (snd r)) = trace (proc s) ++ evs /\
    os_Stdout (proc (snd r)) = os_Stdout (proc s) /\
    (all_ok evs \/ failed_in_level flags cmdArgs evs (fst r) (snd r)).
Proof.
  induction fuel as [|fuel IH]; intros s Hs r; subst r.
  - exists []. cbn. rewrite app_nil_r. repeat split. left. constructor.
  - rewrite loop_unfold, level_unfold.
    destruct (pass_spec flags cmdArgs s Hs)
      as (evs1 & Ht & Hd & Ho & _ & Hin & Hit & Hcases).
    destruct (pass flags cmdArgs (polynomialInt flags) s) as [r1 s1].
    cbn [fst snd set_summaryData summaryData proc input iteration]
      in Ht, Hd, Ho, Hin, Hit, Hcases.
    destruct Hcases as [(Hl & Hok & Hsd & Hres)
                       | (pre & e & He & Hok & Hf & Hres & Hsd)].
    + destruct (level_end flags (input s)); subst r1.
      * destruct ((count_up (length (level_chunks flags (input s))) 0 =? 0)
                  || (count_up (length (level_chunks flags (input s))) 0 =? 1)).
        -- exists evs1. cbn [fst snd]. repeat split; try assumption. now left.
        -- specialize (IH (mkSt (proc s1) [] (summaryLine s1) (summaryData s1)
                                (Go.wrap_int64 (iteration s1 + 1))) eq_refl).
           cbv zeta in IH. destruct IH as (evs2 & Ht2 & Ho2 & Hc2).
           cbn [proc] in Ht2, Ho2.
           exists (evs1 ++ evs2). rewrite Ht2, Ht, Ho2, Ho, app_assoc.
           repeat split.
           destruct Hc2 as [Hok2 | (Hr2 & before & done & e & He & Hok2 & Hrest)].
           ++ left. now apply Forall_app.
           ++ right. split; [exact Hr2|].
              exists (evs1 ++ before), done, e. rewrite He, <- !app_assoc.
              split; [reflexivity|]. split; [|exact Hrest].
              apply Forall_app. split; [exact Hok | exact Hok2].
      * exists evs1. cbn [fst snd]. repeat split; try assumption. now left.
    + subst r1. exists evs1. cbn [fst snd]. repeat split; try assumption.
      right. split; [reflexivity|].
      exists [], pre, e. cbn [app]. rewrite Hin, Hit.
      split; [exact He|]. split; [exact Hok|]. split; [exact Hf|].
      split; [|exact Hsd].
      rewrite He in Hd. rewrite length_app, Nat.add_comm in Hd. exact Hd.
Qed.

(** C6. In every run of the reduction driver in which some dispatch fails,
    the failing dispatch is the last call the process makes at any level and
    the exit status is 1; the summary of the level in progress holds its
    iteration line and the captured output of the chunks of that level
    dispatched before the failure, nothing else; standard output receives
    nothing. *)
Theorem failed_dispatch_aborts fuel s evs :
  let r := main fuel flags cmdArgs s in
  trace (proc (snd r)) = trace (proc s) ++ evs ->
  Exists (fun e => ev_failed e = true) evs ->
  exit_status (fst r) = Some 1 /\
  os_Stdout (proc (snd r)) = os_Stdout (proc s) /\
  failed_in_level flags cmdArgs evs (fst r) (snd r).
Proof.
  intros r Ht Hex. subst r.
  destruct (newPolynomial flags) eqn:Hn.
  { exfalso.
    destruct (one_shot_new flags (proc s) Hn) as [Hr [Hg _]].
    rewrite (multicchunker_main_returned _ _ _ _ Hr) in Ht.
    cbn [snd set_proc proc] in Ht. rewrite Hg in Ht.
    apply app_inv_head in Ht. subst evs.
    inversion Hex as [? ? Hf | ? ? Hf]; [discriminate Hf | inversion Hf]. }
  destruct (checkPolynomial flags) eqn:Hc.
  { exfalso.
    destruct (one_shot_check flags (proc s) Hn Hc) as [Hr Hg].
    rewrite (multicchunker_main_returned _ _ _ _ Hr) in Ht.
    cbn [snd set_proc proc] in Ht. rewrite Hg in Ht.
    apply app_inv_head in Ht. subst evs.
    inversion Hex as [? ? Hf | ? ? Hf]; [discriminate Hf | inversion Hf]. }
  assert (Hargs : cmdArgs = [] \/ cmdArgs <> []).
  { destruct cmdArgs; [now left | right; discriminate]. }
  destruct Hargs as [Hnil | Hne].
  { exfalso. rewrite Hnil, (multicchunker_no_command _ _ _ Hn Hc) in Ht.
    change (trace (proc s) = trace (proc s) ++ evs) in Ht.
    rewrite <- (app_nil_r (trace (proc s))) in Ht at 1.
    apply app_inv_head in Ht. subst evs. inversion Hex. }
  rewrite (main_unfold flags cmdArgs fuel s Hn Hc Hne) in *.
  destruct (loop_failure fuel (loop_entry s) eq_refl)
    as (evs' & Ht' & Ho' & Hcase).
  destruct (loop fuel flags cmdArgs (polynomialInt flags) (loop_entry s))
    as [[[] | c |] s1] eqn:El; cbn [fst snd loop_entry proc] in Ht', Ho', Hcase.
  - exfalso.
    rewrite (bind_ret _ (fun _ => write_result) _ tt s1 El) in Ht.
    destruct (write_result_spec s1) as [Htw _].
    rewrite Htw, Ht' in Ht. apply app_inv_head in Ht. subst evs'.
    destruct Hcase as [Hok | [Hr _]];
      [exact (all_ok_no_failure _ Hok Hex) | discriminate Hr].
  - rewrite (bind_exit _ (fun _ => write_result) _ c s1 El) in *.
    cbn [fst snd] in *.
    rewrite Ht' in Ht. apply app_inv_head in Ht. subst evs'.
    destruct Hcase as [Hok | [Hr Hrest]];
      [exfalso; exact (all_ok_no_failure _ Hok Hex)|].
    rewrite Hr. split; [reflexivity|]. split; [exact Ho'|].
    split; [reflexivity | exact Hrest].
  - exfalso.
    rewrite (bind_out_of_fuel _ (fun _ => write_result) _ s1 El) in Ht.
    cbn [fst snd] in Ht.
    rewrite Ht' in Ht. apply app_inv_head in Ht. subst evs'.
    destruct Hcase as [Hok | [Hr _]];
      [exact (all_ok_no_failure _ Hok Hex) | discriminate Hr].
Qed.



End Runs.

(** ** The drivers on the small host *)

Lemma demo_pieces_cover fuel : forall s : bytes,
  (length s <= fuel)%nat ->
  concat (Demo.pieces fuel s) = s /\
  Forall (fun c : bytes => c <> []) (Demo.pieces fuel s).
Proof.
  induction fuel as [|fuel IH]; intros s Hl.
  - destruct s; [split; [reflexivity | constructor] | cbn in Hl; lia].
  - destruct s as [|b s]; [split; [reflexivity | constructor]|].
    cbn [Demo.pieces].
    destruct (IH (skipn 8 (b :: s))) as [Hc Hn].
    { rewrite length_skipn. cbn [length] in *. lia. }
    split.
    + cbn [concat]. rewrite Hc. apply firstn_skipn.
    + constructor; [discriminate | exact Hn].
Qed.

Lemma demo_contract : @chunk_source_contract Demo.host.
Proof.
  intros rd pol mn mx bits chunks Hx.
  cbn in Hx. unfold Demo.next_all in Hx. cbn in Hx.
  injection Hx as <-. apply demo_pieces_cover. lia.
Qed.

Lemma level_end_decision_witness :
  let pol := polynomialInt default_flags in
  (let s := loop_entry Demo.three_chunks in
   let s1 := snd (pass default_flags Demo.sh pol s) in
   level_of_run default_flags Demo.sh s 0 s /\
   pass default_flags Demo.sh pol s = (Ret 3, s1) /\
   2 <= 3 /\
   exists s2,
     level default_flags Demo.sh pol s = (Ret false, s2) /\
     input s2 = summaryData s1 /\
     iteration s2 = 0 + 1 /\
     summaryData s2 = []) /\
  (let s := loop_entry Demo.one_chunk in
   let s1 := snd (pass default_flags Demo.sh pol s) in
   level_of_run default_flags Demo.sh s 0 s /\
   pass default_flags Demo.sh pol s = (Ret 1, s1) /\
   level default_flags Demo.sh pol s = (Ret true, s1) /\
   os_Stdout (proc s1) = []).
Proof.
  intros pol. split.
  - intros s s1. split; [constructor|]. split; [reflexivity|].
    split; [lia|].
    destruct (@level_end_decision Demo.host default_flags Demo.sh
                Demo.three_chunks 0 s 3 s1 (run_first _ _ _) eq_refl)
      as [_ Hgo].
    destruct (Hgo ltac:(lia)) as (s2 & Hl & Hi & _ & Hk & Hs & _).
    destruct (Hk ltac:(cbn; lia)) as [Hk1 Hk2].
    exists s2. rewrite Hk2, Hk1. repeat split; assumption.
  - intros s s1. split; [constructor|]. split; [reflexivity|].
    destruct (@level_end_decision Demo.host default_flags Demo.sh
                Demo.one_chunk 0 s 1 s1 (run_first _ _ _) eq_refl)
      as [Hstop _].
    destruct (Hstop (or_intror eq_refl)) as (Hl & _ & _ & Ho & _).
    split; assumption.
Defined.



Lemma failed_dispatch_aborts_witness :
  let r := main 5 default_flags Demo.sh Demo.failing_chunk in
  let ok := EvRun (chunk_command Demo.sh (Go.text "aaaaaaaa"))
                  (mkCmdResult [x68; Go.newline] [] None) in
  let ko := EvRun (chunk_command Demo.sh (Go.text "!bbbbbbb"))
                  (mkCmdResult [] [] (Some "exit status 2"%string)) in
  trace (proc (snd r)) = trace (proc Demo.failing_chunk) ++ [ok; ko] /\
  Exists (fun e => ev_failed e = true) [ok; ko] /\
  exit_status (fst r) = Some 1 /\
  os_Stdout (proc (snd r)) = [] /\
  failed_in_level default_flags Demo.sh [ok; ko] (fst r) (snd r).
Proof.
  intros r ok ko.
  assert (Ht : trace (proc (snd r)) = trace (proc Demo.failing_chunk) ++ [ok; ko])
    by reflexivity.
  assert (Hex : Exists (fun e => ev_failed e = true) [ok; ko])
    by (apply Exists_cons_tl, Exists_cons_hd; reflexivity).
  split; [exact Ht|]. split; [exact Hex|].
  exact (@failed_dispatch_aborts Demo.host default_flags Demo.sh 5
           Demo.failing_chunk [ok; ko] Ht Hex).
Defined.


(** The second end-to-end scenario of the specification on the small host:
    three chunks at level 0, one at level 1, and the output is the line [1]
    followed by the line captured at level 1. *)
Example demo_two_levels :
  let r := main 2 default_flags Demo.sh Demo.three_chunks in
  exit_status (fst r) = Some 0 /\
  os_Stdout (proc (snd r)) = [x31; Go.newline; x68; Go.newline] /\
  input (snd r) = [x30; Go.newline; x68; Go.newline; x68; Go.newline;
                   x68; Go.newline].
Proof. repeat split. Qed.

(** * Further properties of the two programs *)

(** ** The one-shot actions *)

Lemma one_shot_checked {H : Host} flags p :
  newPolynomial flags = false ->
  checkPolynomial flags = true ->
  fst (one_shot flags p) <> Ret false /\
  checked flags p (fst (one_shot flags p)) (snd (one_shot flags p)).
Proof.
  intros Hn Hc. unfold one_shot, checked. rewrite Hn, Hc.
  unfold Pol_Irreducible, Fprint_Stderr. monad_step.
  destruct (Irreducible (polynomialInt flags)); cbn;
    (split; [discriminate | repeat split]).
Qed.

(** X1. With the check-polynomial flag set and the generate flag not set,
    either program does one thing, whatever the command and the other
    flags: it tests the polynomial of the [-polynomial] flag for
    irreducibility. It exits with status 0 and prints nothing when the
    polynomial is irreducible, and with status 1 and one line on standard
    error when it is not; no chunk is dispatched and standard output stays
    as it is. *)
Theorem check_polynomial_only {H : Host} flags cmdArgs :
  newPolynomial flags = false ->
  checkPolynomial flags = true ->
  (forall p,
     checked flags p (fst (Cchunker.main flags cmdArgs p))
                     (snd (Cchunker.main flags cmdArgs p))) /\
  (forall fuel s,
     checked flags (proc s) (fst (main fuel flags cmdArgs s))
                   (proc (snd (main fuel flags cmdArgs s)))).
Proof.
  intros Hn Hc. split.
  - intros p. destruct (one_shot_checked flags p Hn Hc) as [Hr Hk].
    rewrite (cchunker_main_returned _ _ _ Hr). cbn [fst snd].
    unfold checked in *. now rewrite exit_status_returned.
  - intros fuel s.
    destruct (one_shot_checked flags (proc s) Hn Hc) as [Hr Hk].
    rewrite (multicchunker_main_returned _ _ _ _ Hr).
    cbn [fst snd set_proc proc].
    unfold checked in *. now rewrite exit_status_returned.
Qed.

Lemma check_polynomial_only_witness :
  let flags := mkFlags false true false false default_polynomial in
  newPolynomial flags = false /\ checkPolynomial flags = true /\
  let r := Cchunker.main flags Demo.sh (Demo.proc0 [x61]) in
  exit_status (fst r) = Some 0 /\
  os_Stdout (snd r) = [] /\ os_Stderr (snd r) = [] /\
  trace (snd r) = [EvIrreducible default_polynomial].
Proof.
  intros flags. split; [reflexivity|]. split; [reflexivity|].
  destruct (@check_polynomial_only Demo.host flags Demo.sh eq_refl eq_refl)
    as [Hc _].
  destruct (Hc (Demo.proc0 [x61])) as (Ht & Ho & _ & Hv).
  cbn in Hv. destruct Hv as [Hs He].
  intros r. subst r. repeat split; assumption.
Defined.

(** X2. With the generate flag set, the run does not depend on anything
    else: two invocations that both set it do the same to the process,
    whatever their other flags, their polynomial and their commands, and
    cchunker and multicchunker do the same as each other. *)
Theorem generate_ignores_the_rest {H : Host} flags flags' cmdArgs cmdArgs' :
  newPolynomial flags = true ->
  newPolynomial flags' = true ->
  (forall p,
     Cchunker.main flags cmdArgs p = Cchunker.main flags' cmdArgs' p) /\
  (forall fuel fuel' s,
     main fuel flags cmdArgs s = main fuel' flags' cmdArgs' s /\
     fst (main fuel flags cmdArgs s) = fst (Cchunker.main flags cmdArgs (proc s)) /\
     proc (snd (main fuel flags cmdArgs s)) =
       snd (Cchunker.main flags cmdArgs (proc s))).
Proof.
  intros Hn Hn'.
  assert (Hsame : forall p, one_shot flags p = one_shot flags' p).
  { intros p. unfold one_shot. now rewrite Hn, Hn'. }
  split.
  - intros p.
    rewrite !cchunker_main_returned, Hsame;
      [reflexivity | apply one_shot_new, Hn' | apply one_shot_new, Hn].
  - intros fuel fuel' s.
    rewrite !multicchunker_main_returned, cchunker_main_returned, Hsame;
      [ | apply one_shot_new, Hn | apply one_shot_new, Hn'
        | apply one_shot_new, Hn ].
    repeat split.
Qed.

Lemma generate_ignores_the_rest_witness :
  let flags := mkFlags true false false false default_polynomial in
  let flags' := mkFlags true true true true 7 in
  newPolynomial flags = true /\ newPolynomial flags' = true /\
  @Cchunker.main Demo.host flags Demo.sh (Demo.proc0 [x61]) =
  @Cchunker.main Demo.host flags' [] (Demo.proc0 [x61]).
Proof.
  intros flags flags'. split; [reflexivity|]. split; [reflexivity|].
  apply (@generate_ignores_the_rest Demo.host flags flags' Demo.sh []
           eq_refl eq_refl).
Defined.

(** ** What the single-level driver prints on standard error *)

Lemma fmt_s_nl_not_nil msg e : Go.fmt_s_nl msg e <> [].
Proof.
  unfold Go.fmt_s_nl. intros Hnil.
  apply app_eq_nil in Hnil. destruct Hnil as [_ Hnil].
  apply app_eq_nil in Hnil. destruct Hnil as [_ Hnil]. discriminate Hnil.
Qed.

Lemma loop_outcome_cons c chunks fin e evs ok diag :
  ev_failed e = false ->
  loop_outcome chunks fin evs ok diag ->
  loop_outcome (c :: chunks) fin (e :: evs) ok diag.
Proof.
  intros He [(Hok & Hf & Ha & Hl & Hd)
            | [(Hok & Ha & Hl & Herr)
              | (Hok & pre & cm & res & er & Hev & Ha & Hr & Hd)]].
  - left. repeat split; try assumption.
    + now constructor.
    + cbn. now rewrite Hl.
  - right. left. repeat split; try assumption.
    + now constructor.
    + cbn. now rewrite Hl.
  - right. right. split; [exact Hok|].
    exists (e :: pre), cm, res, er. rewrite Hev.
    repeat split; try assumption. now constructor.
Qed.

Lemma loop_outcome_exit chunks fin evs diag :
  loop_outcome chunks fin evs false diag -> diag <> [].
Proof.
  intros [(Hok & _) | [(_ & _ & _ & e & _ & ->)
                      | (_ & pre & c & res & e & _ & _ & _ & ->)]].
  - discriminate Hok.
  - apply fmt_s_nl_not_nil.
  - apply fmt_s_nl_not_nil.
Qed.

Lemma cchunker_chunk_loop_outcome {H : Host} cmdArgs fin chunks : forall p,
  let r := Cchunker.chunk_loop cmdArgs chunks fin p in
  exists evs diag,
    stderr_grew p (snd r) evs diag /\
    runs_of cmdArgs evs /\
    loop_outcome chunks fin evs (is_ret (fst r)) diag /\
    (is_ret (fst r) = false -> fst r = Exit 1).
Proof.
  induction chunks as [|chunk rest IH]; intros p r; subst r.
  - cbn [Cchunker.chunk_loop]. destruct fin as [|e].
    + exists [], []. cbn. unfold stderr_grew. cbn. rewrite !app_nil_r.
      repeat split; [constructor | | discriminate].
      left. repeat split. constructor.
    + exists [], (msg_next e). cbn. unfold stderr_grew. cbn.
      rewrite !app_nil_r.
      repeat split; [constructor|].
      right. left. repeat split; [constructor|]. now exists e.
  - rewrite cchunker_chunk_loop_cons. cbv zeta.
    set (cmd := chunk_command cmdArgs chunk).
    set (res := fst (exec_Run cmd (env p))).
    set (p1 := add_Stdout _ _).
    destruct (cr_err res) as [e|] eqn:Er.
    + exists [EvRun cmd res], (msg_run e). cbn. unfold stderr_grew. cbn.
      rewrite app_nil_r, <- app_assoc.
      repeat split.
      * constructor; [now exists chunk, res | constructor].
      * right. right. split; [reflexivity|].
        exists [], cmd, res, e. repeat split; [constructor | exact Er].
    + destruct (IH p1) as (evs & diag & [Ht Hs] & Hruns & Hout & Hex).
      exists (EvRun cmd res :: evs), diag.
      split; [|split; [|split]].
      * unfold stderr_grew. rewrite Ht, Hs. subst p1. cbn.
        rewrite <- !app_assoc. split; reflexivity.
      * constructor; [now exists chunk, res | exact Hruns].
      * apply loop_outcome_cons; [cbn; now rewrite Er | exact Hout].
      * exact Hex.
Qed.

Lemma cchunker_main_chunks {H : Host} flags cmdArgs p :
  newPolynomial flags = false ->
  checkPolynomial flags = false ->
  cmdArgs <> [] ->
  Cchunker.main flags cmdArgs p =
  Cchunker.chunk_loop cmdArgs (level_chunks flags (os_Stdin p))
    (level_end flags (os_Stdin p)) p.
Proof.
  intros Hn Hc Ha. unfold Cchunker.main, level_chunks, level_end. monad_step.
  rewrite (one_shot_none _ _ Hn Hc).
  destruct cmdArgs as [|a args]; [now contradiction Ha|].
  cbn [length Nat.eqb].
  destruct (select_chunker flags (os_Stdin p) (polynomialInt flags))
    as [cchunker buf].
  cbn [fst]. destruct (Next_all cchunker) as [chunks fin]. reflexivity.
Qed.

(** X4. A chunking run of cchunker ends in one of three ways, and standard
    error tells which. It receives the error output of every child, in the
    order of the dispatches, and then: nothing, when all chunks were
    dispatched and the stream ended (status 0); the line [error getting next
    data chunk: e], when all chunks before the error [e] of the chunk source
    were dispatched (status 1); the line [error running chunk processing
    command: e], when the last dispatch failed with [e] (status 1). *)
Theorem cchunker_diagnostics {H : Host} flags cmdArgs p :
  newPolynomial flags = false ->
  checkPolynomial flags = false ->
  cmdArgs <> [] ->
  let r := Cchunker.main flags cmdArgs p in
  exists evs diag,
    stderr_grew p (snd r) evs diag /\
    loop_outcome (level_chunks flags (os_Stdin p))
                 (level_end flags (os_Stdin p)) evs (is_ret (fst r)) diag /\
    exit_status (fst r) = Some (if is_ret (fst r) then 0 else 1).
Proof.
  intros Hn Hc Ha r. subst r.
  rewrite (cchunker_main_chunks _ _ _ Hn Hc Ha).
  destruct (cchunker_chunk_loop_outcome cmdArgs
              (level_end flags (os_Stdin p))
              (level_chunks flags (os_Stdin p)) p)
    as (evs & diag & Hg & _ & Hout & Hex).
  exists evs, diag. split; [exact Hg|]. split; [exact Hout|].
  destruct (fst (Cchunker.chunk_loop _ _ _ p)) as [[] | c |];
    cbn [is_ret exit_status] in *;
    [ reflexivity
    | specialize (Hex eq_refl); injection Hex as ->; reflexivity
    | specialize (Hex eq_refl); discriminate Hex ].
Qed.

Lemma cchunker_diagnostics_witness :
  let p := Demo.proc0 (Go.text "aaaaaaaa!bbbbbbbcc") in
  let r := Cchunker.main default_flags Demo.sh p in
  newPolynomial default_flags = false /\
  checkPolynomial default_flags = false /\
  Demo.sh <> [] /\
  exit_status (fst r) = Some 1 /\
  exists evs diag, stderr_grew p (snd r) evs diag /\ diag <> [].
Proof.
  intros p r. split; [reflexivity|]. split; [reflexivity|].
  split; [discriminate|].
  destruct (@cchunker_diagnostics Demo.host default_flags Demo.sh p
              eq_refl eq_refl ltac:(discriminate))
    as (evs & diag & Hg & Hout & Hs).
  split; [exact Hs|]. exists evs, diag. split; [exact Hg|].
  exact (loop_outcome_exit _ _ _ _ Hout).
Defined.

Lemma stderr_grew_trans {H : Host} (p p1 p2 : Proc) evs1 evs2 diag :
  stderr_grew p p1 evs1 [] ->
  stderr_grew p1 p2 evs2 diag ->
  stderr_grew p p2 (evs1 ++ evs2) diag.
Proof.
  intros [Ht1 Hs1] [Ht2 Hs2]. split.
  - now rewrite Ht2, Ht1, app_assoc.
  - rewrite Hs2, Hs1, app_nil_r, map_app, concat_app, <- !app_assoc.
    reflexivity.
Qed.

Lemma runs_of_command name args evs :
  runs_of (name :: args) evs ->
  Forall (fun e => exists c r, e = EvRun c r /\ Args c = name :: args) evs.
Proof.
  apply Forall_impl. intros e (chunk & r & ->).
  exists (chunk_command (name :: args) chunk), r.
  split; [reflexivity|]. destruct args; reflexivity.
Qed.

(** ** The reduction driver: standard error *)

Lemma chunk_loop_outcome {H : Host} cmdArgs fin chunks : forall n s,
  let r := chunk_loop cmdArgs chunks fin n s in
  exists evs diag,
    stderr_grew (proc s) (proc (snd r)) evs diag /\
    runs_of cmdArgs evs /\
    loop_outcome chunks fin evs (is_ret (fst r)) diag /\
    (is_ret (fst r) = false -> fst r = Exit 1).
Proof.
  induction chunks as [|chunk rest IH]; intros n s r; subst r.
  - cbn [chunk_loop]. destruct fin as [|e].
    + exists [], []. cbn. unfold stderr_grew. cbn. rewrite !app_nil_r.
      repeat split; [constructor | | discriminate].
      left. repeat split. constructor.
    + exists [], (msg_next e). cbn. unfold stderr_grew. cbn.
      rewrite !app_nil_r.
      repeat split; [constructor|].
      right. left. repeat split; [constructor|]. now exists e.
  - rewrite chunk_loop_cons. cbv zeta.
    set (cmd := chunk_command cmdArgs chunk).
    set (res := fst (exec_Run cmd (env (proc s)))).
    set (p1 := after_run _ _ _ _).
    destruct (cr_err res) as [e|] eqn:Er.
    + exists [EvRun cmd res], (msg_run e). cbn. unfold stderr_grew. cbn.
      rewrite app_nil_r, <- app_assoc.
      repeat split.
      * constructor; [now exists chunk, res | constructor].
      * right. right. split; [reflexivity|].
        exists [], cmd, res, e. repeat split; [constructor | exact Er].
    + destruct (IH (Go.wrap_int (n + 1))
                  (mkSt p1 (summaryData s ++ cr_out res) (cr_out res)
                        (input s) (iteration s)))
        as (evs & diag & [Ht Hs] & Hruns & Hout & Hex).
      exists (EvRun cmd res :: evs), diag.
      split; [|split; [|split]].
      * unfold stderr_grew. rewrite Ht, Hs. subst p1. cbn.
        rewrite <- !app_assoc. split; reflexivity.
      * constructor; [now exists chunk, res | exact Hruns].
      * apply loop_outcome_cons; [cbn; now rewrite Er | exact Hout].
      * exact Hex.
Qed.

Lemma pass_outcome {H : Host} flags cmdArgs s :
  let r := pass flags cmdArgs (polynomialInt flags) s in
  exists evs diag,
    stderr_grew (proc s) (proc (snd r)) evs diag /\
    runs_of cmdArgs evs /\
    loop_outcome (level_chunks flags (input s)) (level_end flags (input s))
                 evs (is_ret (fst r)) diag /\
    (is_ret (fst r) = false -> fst r = Exit 1).
Proof.
  intros r. subst r. rewrite pass_unfold.
  apply (chunk_loop_outcome cmdArgs (level_end flags (input s))
           (level_chunks flags (input s)) 0
           (set_summaryData (summaryData s ++ Go.fmt_d_nl (iteration s)) s)).
Qed.

(** X5. Every level of the reduction driver ends in one of three ways, and
    standard error tells which: it receives the error output of every child
    of the level, in the order of the dispatches, and then nothing when the
    level's chunks were all dispatched and its input ended; the line [error
    getting next data chunk: e] when the chunk source failed with [e] after
    them; the line [error running chunk processing command: e] when the last
    dispatch failed with [e]. In the two last cases the process exits with
    status 1. *)
Theorem level_diagnostics {H : Host} flags cmdArgs s :
  let r := pass flags cmdArgs (polynomialInt flags) s in
  exists evs diag,
    stderr_grew (proc s) (proc (snd r)) evs diag /\
    loop_outcome (level_chunks flags (input s)) (level_end flags (input s))
                 evs (is_ret (fst r)) diag /\
    (is_ret (fst r) = false -> fst r = Exit 1).
Proof.
  intros r. subst r.
  destruct (pass_outcome flags cmdArgs s)
    as (evs & diag & Hg & _ & Hout & Hex).
  exists evs, diag. split; [exact Hg|]. split; [exact Hout | exact Hex].
Qed.

Lemma loop_speaks {H : Host} flags cmdArgs fuel : forall s,
  let r := loop fuel flags cmdArgs (polynomialInt flags) s in
  exists evs diag,
    stderr_grew (proc s) (proc (snd r)) evs diag /\
    runs_of cmdArgs evs /\
    match fst r with
    | Ret _ => diag = []
    | Exit c => c = 1 /\ diag <> []
    | OutOfFuel => diag = []
    end.
Proof.
  induction fuel as [|fuel IH]; intros s r; subst r.
  - exists [], []. cbn. unfold stderr_grew. rewrite !app_nil_r.
    repeat split. constructor.
  - rewrite loop_unfold, level_unfold, pass_unfold.
    destruct (chunk_loop_outcome cmdArgs (level_end flags (input s))
                (level_chunks flags (input s)) 0
                (set_summaryData (summaryData s ++ Go.fmt_d_nl (iteration s)) s))
      as (evs & diag & Hg & Hruns & Hout & Hex).
    cbv zeta in Hg, Hout, Hex. cbn [set_summaryData proc] in Hg.
    destruct (chunk_loop cmdArgs _ _ 0 _) as [[n | c |] s1];
      cbn [fst snd is_ret] in Hg, Hout, Hex.
    + assert (Hd : diag = []).
      { destruct Hout as [(_ & _ & _ & _ & Hd)
                         | [(Hok & _) | (Hok & _)]];
          [exact Hd | discriminate Hok | discriminate Hok]. }
      subst diag.
      destruct ((n =? 0) || (n =? 1)).
      * exists evs, []. cbn [fst snd].
        split; [exact Hg|]. split; [exact Hruns | reflexivity].
      * destruct (IH (mkSt (proc s1) [] (summaryLine s1) (summaryData s1)
                           (Go.wrap_int64 (iteration s1 + 1))))
          as (evs2 & diag2 & Hg2 & Hruns2 & Hres2).
        cbn [proc] in Hg2.
        exists (evs ++ evs2), diag2.
        split; [exact (stderr_grew_trans _ _ _ _ _ _ Hg Hg2)|].
        split; [apply Forall_app; split; assumption | exact Hres2].
    + specialize (Hex eq_refl). injection Hex as ->.
      exists evs, diag. cbn [fst snd].
      split; [exact Hg|]. split; [exact Hruns|].
      split; [reflexivity | exact (loop_outcome_exit _ _ _ _ Hout)].
    + specialize (Hex eq_refl). discriminate Hex.
Qed.

(** ** What the programs run, and on what *)

(** X3. In chunking mode the only calls that leave either program, at any
    level, are runs of the command whose argument vector is the list of
    positional arguments as it was given, the case the source makes of a
    single argument changing nothing; the polynomial generator and the
    irreducibility test are never called. *)
Theorem only_the_command_runs {H : Host} flags name args :
  newPolynomial flags = false ->
  checkPolynomial flags = false ->
  (forall p evs,
     trace (snd (Cchunker.main flags (name :: args) p)) = trace p ++ evs ->
     Forall (fun e => exists c r, e = EvRun c r /\ Args c = name :: args)
            evs) /\
  (forall fuel s evs,
     trace (proc (snd (main fuel flags (name :: args) s)))
       = trace (proc s) ++ evs ->
     Forall (fun e => exists c r, e = EvRun c r /\ Args c = name :: args)
            evs).
Proof.
  intros Hn Hc.
  assert (Hne : name :: args <> []) by discriminate.
  split.
  - intros p evs Ht.
    rewrite (cchunker_main_chunks _ _ _ Hn Hc Hne) in Ht.
    destruct (cchunker_chunk_loop_outcome (name :: args)
                (level_end flags (os_Stdin p))
                (level_chunks flags (os_Stdin p)) p)
      as (evs' & diag & [Ht' _] & Hruns & _).
    cbv zeta in Ht'. rewrite Ht' in Ht. apply app_inv_head in Ht. subst evs'.
    now apply runs_of_command.
  - intros fuel s evs Ht.
    rewrite (main_unfold flags (name :: args) fuel s Hn Hc Hne) in Ht.
    destruct (loop_speaks flags (name :: args) fuel (loop_entry s))
      as (evs' & diag & [Ht' _] & Hruns & _).
    cbv zeta in Ht'. cbn [loop_entry proc] in Ht'.
    unfold bind in Ht.
    destruct (loop fuel flags (name :: args) (polynomialInt flags)
                   (loop_entry s)) as [[[] | c |] s1]; cbn [fst snd] in *.
    + destruct (write_result_spec s1) as [Hw _].
      rewrite Hw, Ht' in Ht. apply app_inv_head in Ht. subst evs'.
      now apply runs_of_command.
    + rewrite Ht' in Ht. apply app_inv_head in Ht. subst evs'.
      now apply runs_of_command.
    + rewrite Ht' in Ht. apply app_inv_head in Ht. subst evs'.
      now apply runs_of_command.
Qed.

Lemma only_the_command_runs_witness :
  let s := loop_entry Demo.three_chunks in
  newPolynomial default_flags = false /\
  checkPolynomial default_flags = false /\
  length (trace (proc (snd (main 2 default_flags Demo.sh s)))) = 4%nat /\
  Forall (fun e => exists c r,
            e = EvRun c r /\ Args c = ["sh"; "hash.sh"]%string)
         (trace (proc (snd (main 2 default_flags Demo.sh s)))).
Proof.
  intros s. split; [reflexivity|]. split; [reflexivity|].
  split; [vm_compute; reflexivity|].
  destruct (@only_the_command_runs Demo.host default_flags
              "sh"%string ["hash.sh"%string] eq_refl eq_refl) as [_ Hm].
  exact (Hm 2%nat s _ eq_refl).
Defined.

Lemma dispatches_inputs cmdArgs chunks evs :
  dispatches cmdArgs chunks evs -> map ev_input evs = chunks.
Proof.
  induction 1 as [|c e chunks evs [r ->] _ IH]; [reflexivity|].
  cbn [map]. now rewrite IH.
Qed.

Lemma dispatches_outputs_nonempty cmdArgs chunks evs :
  dispatches cmdArgs chunks evs ->
  Forall (fun c : bytes => c <> []) chunks ->
  Forall (fun e => ev_input e <> []) evs.
Proof.
  induction 1 as [|c e chunks evs [r ->] _ IH]; intros Hne; [constructor|].
  inversion Hne as [|? ? Hc Hrest]; subst.
  constructor; [exact Hc | now apply IH].
Qed.

Lemma level_chunks_cover {H : Host} flags inp :
  chunk_source_contract ->
  level_end flags inp = EndEOF ->
  concat (level_chunks flags inp) = inp /\
  Forall (fun c : bytes => c <> []) (level_chunks flags inp).
Proof.
  unfold level_end, level_chunks. rewrite select_chunker_profile.
  unfold chunker_of_profile. cbn [fst]. intros Hc He.
  destruct (Next_all _) as [chunks fin] eqn:En. cbn [fst snd] in *. subst fin.
  exact (Hc _ _ _ _ _ _ En).
Qed.

(** X7. When the chunk source keeps its contract and cchunker exits with
    status 0, the input went through whole: the calls made are the runs of
    the command on the chunks of standard input, every one with the result
    the run really gave and none of them failing; their inputs, none of them
    empty, put end to end in the order of the dispatches, are the bytes of
    standard input; and standard output received the outputs of the
    children in the same order. *)
Theorem cchunker_feeds_the_whole_input {H : Host} flags cmdArgs p :
  chunk_source_contract ->
  newPolynomial flags = false ->
  checkPolynomial flags = false ->
  cmdArgs <> [] ->
  let r := Cchunker.main flags cmdArgs p in
  let evs := fst (runs cmdArgs (level_chunks flags (os_Stdin p)) (env p)) in
  exit_status (fst r) = Some 0 ->
  trace (snd r) = trace p ++ evs /\
  all_ok evs /\
  map ev_input evs = level_chunks flags (os_Stdin p) /\
  concat (map ev_input evs) = os_Stdin p /\
  Forall (fun e => ev_input e <> []) evs /\
  os_Stdout (snd r) = os_Stdout p ++ concat (map ev_out evs).
Proof.
  intros Hcon Hn Hc Ha r evs Hs. subst r evs.
  rewrite (cchunker_main_chunks _ _ _ Hn Hc Ha) in *.
  destruct (cchunker_chunk_loop_runs cmdArgs (level_end flags (os_Stdin p))
              (level_chunks flags (os_Stdin p)) p) as (Htr & _ & Hor).
  destruct (cchunker_chunk_loop_spec cmdArgs (level_end flags (os_Stdin p))
              (level_chunks flags (os_Stdin p)) p)
    as (evs & Ht & Hd & Ho & Hcases).
  rewrite Htr in Ht. apply app_inv_head in Ht. subst evs.
  destruct Hcases as [(Hl & Hok & Hst) | (pre & e & _ & _ & _ & Hr)];
    [| rewrite Hr in Hs; discriminate Hs].
  rewrite Hs in Hst.
  destruct (level_end flags (os_Stdin p)) eqn:He; [|discriminate Hst].
  destruct (level_chunks_cover flags (os_Stdin p) Hcon He) as [Hcov Hne].
  rewrite Hl, firstn_all in Hd.
  split; [exact Htr|]. split; [exact Hok|].
  split; [exact (dispatches_inputs _ _ _ Hd)|].
  split; [now rewrite (dispatches_inputs _ _ _ Hd)|].
  split; [exact (dispatches_outputs_nonempty _ _ _ Hd Hne) | exact Hor].
Qed.

Lemma cchunker_feeds_the_whole_input_witness :
  let p := Demo.proc0 (Go.text "aaaaaaaabb") in
  let r := Cchunker.main default_flags Demo.sh p in
  let ran chunk :=
    EvRun (chunk_command Demo.sh (Go.text chunk))
          (mkCmdResult [x68; Go.newline] [] None) in
  @chunk_source_contract Demo.host /\
  newPolynomial default_flags = false /\
  checkPolynomial default_flags = false /\
  Demo.sh <> [] /\
  exit_status (fst r) = Some 0 /\
  trace (snd r) = [ran "aaaaaaaa"; ran "bb"]%string /\
  os_Stdout (snd r) = [x68; Go.newline; x68; Go.newline].
Proof.
  intros p r ran. split; [exact demo_contract|].
  split; [reflexivity|]. split; [reflexivity|]. split; [discriminate|].
  split; [reflexivity|].
  assert (Hne : Demo.sh <> []) by discriminate.
  destruct (@cchunker_feeds_the_whole_input Demo.host default_flags Demo.sh p
              demo_contract eq_refl eq_refl Hne eq_refl)
    as (Ht & _ & _ & _ & _ & Ho).
  split; [exact Ht | exact Ho].
Defined.

(** X8. When the chunk source keeps its contract, a level of the reduction
    driver whose chunk loop is exhausted has handed its whole input to the
    processor: the calls of the level are the runs of the command on the
    chunks of the level's input (standard input at the first level, the
    summary of the level before afterwards), every one with the result the
    run really gave and none of them failing; their inputs, none of them
    empty, put end to end in order, are the bytes of that input; the count
    the level returns is the number of its dispatches; and the summary has
    grown by the level's number line followed by the outputs of the
    children in the order of the dispatches. *)
Theorem level_feeds_its_whole_input {H : Host} flags cmdArgs s n s1 :
  chunk_source_contract ->
  pass flags cmdArgs (polynomialInt flags) s = (Ret n, s1) ->
  let evs :=
    fst (runs cmdArgs (level_chunks flags (input s)) (env (proc s))) in
  trace (proc s1) = trace (proc s) ++ evs /\
  all_ok evs /\
  map ev_input evs = level_chunks flags (input s) /\
  concat (map ev_input evs) = input s /\
  Forall (fun e => ev_input e <> []) evs /\
  n = count_up (length evs) 0 /\
  summaryData s1 =
    summaryData s ++ Go.fmt_d_nl (iteration s) ++ concat (map ev_out evs).
Proof.
  intros Hcon Hp evs. subst evs. rewrite pass_unfold in Hp.
  destruct (chunk_loop_runs cmdArgs (level_end flags (input s))
              (level_chunks flags (input s)) 0
              (set_summaryData (summaryData s ++ Go.fmt_d_nl (iteration s)) s))
    as (Htr & _ & Hdr & _).
  destruct (chunk_loop_spec cmdArgs (level_end flags (input s))
              (level_chunks flags (input s)) 0
              (set_summaryData (summaryData s ++ Go.fmt_d_nl (iteration s)) s))
    as (evs & Ht & Hd & _ & _ & _ & _ & Hcases).
  rewrite Hp in Ht, Hcases, Htr, Hdr.
  cbn [fst snd set_summaryData proc summaryData] in Ht, Hcases, Htr, Hdr.
  rewrite Htr in Ht. apply app_inv_head in Ht. subst evs.
  destruct Hcases as [(Hl & Hok & _ & Hr) | (pre & e & _ & _ & _ & Hr & _)];
    [| discriminate Hr].
  destruct (level_end flags (input s)) eqn:He; [|discriminate Hr].
  injection Hr as ->.
  destruct (level_chunks_cover flags (input s) Hcon He) as [Hcov Hne].
  rewrite Hl, firstn_all in Hd.
  split; [exact Htr|]. split; [exact Hok|].
  split; [exact (dispatches_inputs _ _ _ Hd)|].
  split; [now rewrite (dispatches_inputs _ _ _ Hd)|].
  split; [exact (dispatches_outputs_nonempty _ _ _ Hd Hne)|].
  split; [now rewrite Hl|].
  now rewrite Hdr, (captured_all_ok _ Hok), <- app_assoc.
Qed.

Lemma level_feeds_its_whole_input_witness :
  let s := loop_entry Demo.three_chunks in
  let r := pass default_flags Demo.sh (polynomialInt default_flags) s in
  let ran chunk :=
    EvRun (chunk_command Demo.sh (Go.text chunk))
          (mkCmdResult [x68; Go.newline] [] None) in
  @chunk_source_contract Demo.host /\
  r = (Ret 3, snd r) /\
  trace (proc (snd r)) = [ran "aaaaaaaa"; ran "bbbbbbbb"; ran "cc"]%string /\
  summaryData (snd r) =
    [x30; Go.newline; x68; Go.newline; x68; Go.newline; x68; Go.newline].
Proof.
  intros s r ran. split; [exact demo_contract|].
  assert (Hp : r = (Ret 3, snd r)) by (vm_compute; reflexivity).
  split; [exact Hp|].
  destruct (@level_feeds_its_whole_input Demo.host default_flags Demo.sh s 3
              (snd r) demo_contract Hp) as (Ht & _ & _ & _ & _ & _ & Hd).
  split; [exact Ht | exact Hd].
Defined.

(** X9. On an empty standard input, with a chunk source that keeps its
    contract, a chunking run of cchunker does nothing at all: it returns
    with status 0 and leaves the process as it found it, no dispatch made
    and nothing written. *)
Theorem cchunker_empty_input {H : Host} flags cmdArgs p :
  chunk_source_contract ->
  newPolynomial flags = false ->
  checkPolynomial flags = false ->
  cmdArgs <> [] ->
  os_Stdin p = [] ->
  level_end flags [] = EndEOF ->
  Cchunker.main flags cmdArgs p = (Ret tt, p).
Proof.
  intros Hcon Hn Hc Ha Hin He.
  rewrite (cchunker_main_chunks _ _ _ Hn Hc Ha), Hin, He.
  now rewrite (empty_stream_no_chunk flags Hcon He).
Qed.

Lemma cchunker_empty_input_witness :
  @chunk_source_contract Demo.host /\
  newPolynomial default_flags = false /\
  checkPolynomial default_flags = false /\
  Demo.sh <> [] /\
  os_Stdin (Demo.proc0 []) = [] /\
  @level_end Demo.host default_flags [] = EndEOF /\
  Cchunker.main default_flags Demo.sh (Demo.proc0 []) = (Ret tt, Demo.proc0 []).
Proof.
  split; [exact demo_contract|].
  split; [reflexivity|]. split; [reflexivity|]. split; [discriminate|].
  split; [reflexivity|]. split; [reflexivity|].
  apply (@cchunker_empty_input Demo.host default_flags Demo.sh (Demo.proc0 [])
           demo_contract eq_refl eq_refl ltac:(discriminate) eq_refl eq_refl).
Defined.

(** X10. As long as a level has fewer than 2^63 chunks, its counter is the
    number of its chunks, so the outer loop breaks after the level exactly
    when the level's input gave at most one chunk. *)
Theorem level_breaks_on_at_most_one_chunk {H : Host} flags cmdArgs s n s1 :
  Z.of_nat (length (level_chunks flags (input s))) < 2 ^ 63 ->
  pass flags cmdArgs (polynomialInt flags) s = (Ret n, s1) ->
  n = Z.of_nat (length (level_chunks flags (input s))) /\
  (fst (level flags cmdArgs (polynomialInt flags) s) = Ret true <->
   (length (level_chunks flags (input s)) <= 1)%nat).
Proof.
  intros Hsmall Hp.
  assert (Hn : n = Z.of_nat (length (level_chunks flags (input s)))).
  { pose proof Hp as Hp'. rewrite pass_unfold in Hp'.
    destruct (chunk_loop_spec cmdArgs (level_end flags (input s))
                (level_chunks flags (input s)) 0
                (set_summaryData
                   (summaryData s ++ Go.fmt_d_nl (iteration s)) s))
      as (evs & _ & _ & _ & _ & _ & _ & Hcases).
    rewrite Hp' in Hcases. cbn [fst snd] in Hcases.
    destruct Hcases as [(_ & _ & _ & Hr) | (pre & e & _ & _ & _ & Hr & _)];
      [| discriminate Hr].
    destruct (level_end flags (input s)); [|discriminate Hr].
    injection Hr as ->. now apply count_up_small. }
  split; [exact Hn|].
  rewrite level_unfold, Hp.
  destruct ((n =? 0) || (n =? 1)) eqn:Eb; cbn [fst].
  - split; [intros _ | reflexivity].
    apply orb_true_iff in Eb. destruct Eb as [Eb | Eb];
      apply Z.eqb_eq in Eb; lia.
  - split; [discriminate|]. intros Hle. exfalso.
    apply orb_false_iff in Eb. destruct Eb as [E0 E1].
    apply Z.eqb_neq in E0, E1. lia.
Qed.

Lemma level_breaks_on_at_most_one_chunk_witness :
  let s := loop_entry Demo.three_chunks in
  let r := pass default_flags Demo.sh (polynomialInt default_flags) s in
  Z.of_nat (length (@level_chunks Demo.host default_flags (input s))) < 2 ^ 63 /\
  r = (Ret 3, snd r) /\
  3 = Z.of_nat (length (@level_chunks Demo.host default_flags (input s))) /\
  fst (level default_flags Demo.sh (polynomialInt default_flags) s) <> Ret true.
Proof.
  intros s r.
  assert (Hlt : Z.of_nat (length (@level_chunks Demo.host default_flags
                                    (input s))) < 2 ^ 63)
    by (vm_compute; reflexivity).
  assert (Hp : r = (Ret 3, snd r)) by (vm_compute; reflexivity).
  split; [exact Hlt|]. split; [exact Hp|].
  destruct (@level_breaks_on_at_most_one_chunk Demo.host default_flags Demo.sh
              s 3 (snd r) Hlt Hp)
    as [Hn Hiff].
  split; [exact Hn|]. intros Hb. apply Hiff in Hb.
  vm_compute in Hb. lia.
Defined.

(** ** Runs of the reduction driver that succeed *)







